(** * The JACK output driver of Shairport Sync ([audio_jack.c])

    A shallow embedding of the realtime consumer ([process]), the producer
    ([play]), the flush request ([jack_flush]), the delay estimator
    ([jack_delay]) and the sample converter ([sample_conv]), together with a
    model of the JACK ring buffer they share; of the graph-order callback
    ([graph]); and of the start of the driver ([jack_init]) with its ways
    out. *)

From Stdlib Require Import ZArith List Lia Bool QArith Qabs.
From Stdlib Require Import Lqa.
From Stdlib.Strings Require Import Byte.
From Stdlib.Strings Require String.
From Stdlib Require Import Floats Uint63.
Import ListNotations.

Local Open Scope Z_scope.

(** ** Machine integers

    The C types of the source on an LP64 target: [int] and
    [jack_nframes_t] (= [uint32_t]) are 32 bits wide, [size_t], [long] and
    [int64_t] are 64 bits wide, [short] is 16 bits wide.  A value is a [Z];
    a conversion to a type wraps into its range. *)
Module CInt.

Definition wrap_unsigned (bits x : Z) : Z := x mod 2 ^ bits.
Definition wrap_signed (bits x : Z) : Z :=
  (x + 2 ^ (bits - 1)) mod 2 ^ bits - 2 ^ (bits - 1).

Definition to_short (x : Z) : Z := wrap_signed 16 x.
Definition to_int (x : Z) : Z := wrap_signed 32 x.
Definition to_nframes (x : Z) : Z := wrap_unsigned 32 x.
Definition to_size_t (x : Z) : Z := wrap_unsigned 64 x.
Definition to_int64 (x : Z) : Z := wrap_signed 64 x.
Definition to_long (x : Z) : Z := wrap_signed 64 x.

Definition SHRT_MIN : Z := -32768.
Definition SHRT_MAX : Z := 32767.
Definition INT_MAX : Z := 2147483647.
Definition INT64_MIN : Z := - 2 ^ 63.
Definition INT64_MAX : Z := 2 ^ 63 - 1.

End CInt.
Import CInt.

(** ** Floating point

    C evaluates the body of [sample_conv] in [double] (IEEE 754 binary64,
    the kernel's primitive floats) and returns it as
    [jack_default_audio_sample_t], a [float] (binary32).  A [float] is
    represented by the [double] of the same value; the conversion from
    [double] rounds to 24 bits of precision, to nearest with ties to even,
    as the Standard Library's IEEE 754 specification defines it. *)
Module CFloat.

Definition float_prec : Z := 24.
Definition float_emax : Z := 128.

(** An integer converted to [double] (exact below [2 ^ 53]). *)
Definition double_of_Z (z : Z) : float :=
  if z <? 0
  then PrimFloat.opp (PrimFloat.of_uint63 (Uint63.of_Z (- z)))
  else PrimFloat.of_uint63 (Uint63.of_Z z).

(** A [double] converted to [float]. *)
Definition float_of_double (x : float) : float :=
  match Prim2SF x with
  | S754_finite s m e => SF2Prim (binary_round float_prec float_emax s m e)
  | _ => x
  end.

(** The rational a finite float denotes. *)
Definition F2Q (x : float) : Q :=
  match Prim2SF x with
  | S754_finite s m e =>
      let z := if s then Z.neg m else Z.pos m in
      if 0 <=? e then inject_Z (z * 2 ^ e) else Qmake z (Z.to_pos (2 ^ (- e)))
  | _ => 0%Q
  end.

End CFloat.
Import CFloat.

(** ** The sample converter *)

Definition bytes_per_frame : Z := 4.
Definition NPORTS : Z := 2.

(** [sample_conv], lines 78-80:
    [(sample < 0) ? (-1.0 * sample / SHRT_MIN) : (1.0 * sample / SHRT_MAX)]. *)
Definition sample_conv (sample : Z) : float :=
  float_of_double
    (if sample <? 0
     then (-1 * double_of_Z sample / double_of_Z SHRT_MIN)%float
     else (1 * double_of_Z sample / double_of_Z SHRT_MAX)%float).

(** ** The JACK ring buffer

    The Transfer Buffer of the spec (sections 3 and 4.1) is the ring buffer
    of the JACK library, [<jack/ringbuffer.h>], whose code is not part of
    this repository.  It is modelled here from the spec's contract (a
    bounded byte queue with a read and a write cursor that advance modulo
    the capacity; a write that copies as many bytes as fit and returns their
    number; the unread data exposed as at most two spans; a read cursor
    advanced by the consumer) in the shape the library gives it: the
    storage has [size] bytes, a power of two, the cursors are indices into
    it, reduced with [size_mask = size - 1], and one byte always stays free,
    so that equal cursors mean an empty buffer.  The [size_t] values of the
    library stay far below [2 ^ 64] and are plain [Z]. *)
Module Ringbuffer.

(** Modelled from the spec: the Transfer Buffer, as the library's
    [jack_ringbuffer_t]; [buf] is the storage, indexed from 0. *)
Record jack_ringbuffer_t : Type := mk_ringbuffer {
  buf : Z -> byte;
  write_ptr : Z;
  read_ptr : Z;
  size : Z;
  size_mask : Z
}.

(** Modelled from the spec: one of the "up to two contiguous spans", as the
    library's [jack_ringbuffer_data_t]; [data_buf] is the index of the
    span's first byte in the storage. *)
Record jack_ringbuffer_data_t : Type := mk_data {
  data_buf : Z;
  len : Z
}.

(** [memcpy (dst + d, src + s, n)], the source being a list of bytes. *)
Definition memcpy (dst : Z -> byte) (d : Z) (src : list byte) (s n : Z)
  : Z -> byte :=
  fun a =>
    if (d <=? a) && (a <? d + n)
    then nth (Z.to_nat (s + (a - d))) src x00
    else dst a.

(** Modelled from the spec: the exponent the library's
    [jack_ringbuffer_create] settles on,
    [for (power_of_two = 1; 1 << power_of_two < sz; power_of_two++);]. *)
Fixpoint power_of_two_for (fuel : nat) (p sz : Z) : Z :=
  match fuel with
  | O => p
  | S fuel' => if 2 ^ p <? sz then power_of_two_for fuel' (p + 1) sz else p
  end.

(** Modelled from the spec: the buffer "created once at startup", as
    [jack_ringbuffer_create] builds it: the size rounded up to a power of
    two, both cursors at 0. *)
Definition jack_ringbuffer_create (sz : Z) : jack_ringbuffer_t :=
  let power_of_two := power_of_two_for 62 1 sz in
  {| buf := fun _ => x00;
     write_ptr := 0;
     read_ptr := 0;
     size := 2 ^ power_of_two;
     size_mask := 2 ^ power_of_two - 1 |}.

(** Modelled from the spec: [unread_byte_count], as the library's
    [jack_ringbuffer_read_space] computes it:
    [if (w > r) return w - r;
     else return (w - r + rb->size) & rb->size_mask;]. *)
Definition jack_ringbuffer_read_space (rb : jack_ringbuffer_t) : Z :=
  let w := write_ptr rb in
  let r := read_ptr rb in
  if w >? r then w - r else Z.land (w - r + size rb) (size_mask rb).

(** Modelled from the spec: the free space a write may fill, as the
    library's [jack_ringbuffer_write_space] computes it:
    [if (w > r) return ((r - w + rb->size) & rb->size_mask) - 1;
     else if (w < r) return (r - w) - 1;
     else return rb->size - 1;]. *)
Definition jack_ringbuffer_write_space (rb : jack_ringbuffer_t) : Z :=
  let w := write_ptr rb in
  let r := read_ptr rb in
  if w >? r then Z.land (r - w + size rb) (size_mask rb) - 1
  else if w <? r then (r - w) - 1
  else size rb - 1.

(** Modelled from the spec: [advance_read (n_bytes)], as the library's
    [jack_ringbuffer_read_advance]:
    [rb->read_ptr = (rb->read_ptr + cnt) & rb->size_mask;]. *)
Definition jack_ringbuffer_read_advance (rb : jack_ringbuffer_t) (cnt : Z)
  : jack_ringbuffer_t :=
  {| buf := buf rb;
     write_ptr := write_ptr rb;
     read_ptr := Z.land (read_ptr rb + cnt) (size_mask rb);
     size := size rb;
     size_mask := size_mask rb |}.

(** Modelled from the spec: [write (bytes) -> bytes_written], as the
    library's [jack_ringbuffer_write]: nothing when no byte is free;
    otherwise [to_write = cnt > free_cnt ? free_cnt : cnt] bytes, copied in
    one piece of [n1] bytes up to the end of the storage and, when the
    copy wraps, a second piece of [n2] bytes from its start, the write
    cursor moved on after each piece. *)
Definition jack_ringbuffer_write (rb : jack_ringbuffer_t) (src : list byte)
  (cnt : Z) : Z * jack_ringbuffer_t :=
  let free_cnt := jack_ringbuffer_write_space rb in
  if free_cnt =? 0 then (0, rb)
  else
    let to_write := if cnt >? free_cnt then free_cnt else cnt in
    let cnt2 := write_ptr rb + to_write in
    let '(n1, n2) :=
      if cnt2 >? size rb
      then (size rb - write_ptr rb, Z.land cnt2 (size_mask rb))
      else (to_write, 0) in
    let buf1 := memcpy (buf rb) (write_ptr rb) src 0 n1 in
    let w1 := Z.land (write_ptr rb + n1) (size_mask rb) in
    let '(buf2, w2) :=
      if n2 =? 0 then (buf1, w1)
      else (memcpy buf1 w1 src n1 n2, Z.land (w1 + n2) (size_mask rb)) in
    (to_write,
     {| buf := buf2;
        write_ptr := w2;
        read_ptr := read_ptr rb;
        size := size rb;
        size_mask := size_mask rb |}).

(** Modelled from the spec: [read_available_regions], as the library's
    [jack_ringbuffer_get_read_vector]: with [cnt2 = r + read_space], two
    spans [(r, size - r)] and [(0, cnt2 & size_mask)] when
    [cnt2 > size], else the one span [(r, read_space)] and an empty
    second one. *)
Definition jack_ringbuffer_get_read_vector (rb : jack_ringbuffer_t)
  : jack_ringbuffer_data_t * jack_ringbuffer_data_t :=
  let w := write_ptr rb in
  let r := read_ptr rb in
  let free_cnt :=
    if w >? r then w - r else Z.land (w - r + size rb) (size_mask rb) in
  let cnt2 := r + free_cnt in
  if cnt2 >? size rb
  then ({| data_buf := r; len := size rb - r |},
        {| data_buf := 0; len := Z.land cnt2 (size_mask rb) |})
  else ({| data_buf := r; len := free_cnt |},
        {| data_buf := 0; len := 0 |}).

(** The states the library keeps the buffer in.  The exponent is at least
    2, so that [bytes_per_frame] divides the size, and at most 30, so that
    byte counts fit an [int]. *)
Definition wf (rb : jack_ringbuffer_t) : Prop :=
  exists k, 2 <= k <= 30 /\ size rb = 2 ^ k /\ size_mask rb = size rb - 1 /\
            0 <= read_ptr rb < size rb /\ 0 <= write_ptr rb < size rb.

(** The [i]-th unread byte, and the queue of unread bytes, oldest first. *)
Definition unread_byte (rb : jack_ringbuffer_t) (i : Z) : byte :=
  buf rb ((read_ptr rb + i) mod size rb).

Definition contents (rb : jack_ringbuffer_t) : list byte :=
  map (fun i => unread_byte rb (Z.of_nat i))
      (seq 0 (Z.to_nat (jack_ringbuffer_read_space rb))).

End Ringbuffer.
Import Ringbuffer.

(** Both cursors on a frame boundary: what the driver relies on when it
    counts the frames of each span on its own. *)
Definition on_frame_grid (rb : jack_ringbuffer_t) : Prop :=
  read_ptr rb mod bytes_per_frame = 0 /\ write_ptr rb mod bytes_per_frame = 0.

(** ** The driver's state *)

(** [buffer_size], line 35: four seconds of audio. *)
Definition buffer_size : Z := 44100 * 4 * bytes_per_frame.

(** The file-scope variables of [audio_jack.c] that the modelled functions
    read or write.  [jackbuf] is the buffer [jack_init] allocated; [client]
    is the session handle, [None] for the null pointer. *)
Record jack_state : Type := mk_state {
  jackbuf : jack_ringbuffer_t;
  flush_please : Z;
  jack_latency : Z;
  time_of_latest_transfer : Z;
  client : option Z
}.

Definition set_jackbuf (st : jack_state) (rb : jack_ringbuffer_t) : jack_state :=
  {| jackbuf := rb;
     flush_please := flush_please st;
     jack_latency := jack_latency st;
     time_of_latest_transfer := time_of_latest_transfer st;
     client := client st |}.

Definition set_flush_please (st : jack_state) (v : Z) : jack_state :=
  {| jackbuf := jackbuf st;
     flush_please := v;
     jack_latency := jack_latency st;
     time_of_latest_transfer := time_of_latest_transfer st;
     client := client st |}.

Definition set_time_of_latest_transfer (st : jack_state) (t : Z) : jack_state :=
  {| jackbuf := jackbuf st;
     flush_please := flush_please st;
     jack_latency := jack_latency st;
     time_of_latest_transfer := t;
     client := client st |}.


(** The state [jack_init] leaves (lines 190-215): a fresh ring buffer of
    [buffer_size] bytes, the statics still zero, the session [handle] open. *)
Definition jack_init (handle : Z) : jack_state :=
  {| jackbuf := jack_ringbuffer_create buffer_size;
     flush_please := 0;
     jack_latency := 0;
     time_of_latest_transfer := 0;
     client := Some handle |}.

(** The output buffers of the ports: [buffer i f] is sample [f] of the
    buffer [jack_port_get_buffer] returned for [port[i]]. *)
Definition port_buffers : Type := Z -> Z -> float.

Definition set_sample (buffer : port_buffers) (i f : Z) (v : float)
  : port_buffers :=
  fun i' f' => if (i' =? i) && (f' =? f) then v else buffer i' f'.

(** [*(short * ) p] on a little-endian target, [mem] being the storage
    [p] points into and [a] its index there. *)
Definition load_short (mem : Z -> byte) (a : Z) : Z :=
  to_short (Z.of_N (Byte.to_N (mem a)) + 256 * Z.of_N (Byte.to_N (mem (a + 1)))).

(** ** The realtime consumer *)

(** The inner loop of [deinterleave_and_convert], lines 89-91:
    [jack_buffer[i][f] = sample_conv( *ifp++)] for the [n] ports from [i]. *)
Fixpoint convert_ports (mem : Z -> byte) (n : nat) (i ifp f : Z)
  (jack_buffer : port_buffers) : Z * port_buffers :=
  match n with
  | O => (ifp, jack_buffer)
  | S n' =>
      convert_ports mem n' (i + 1) (ifp + 2) f
        (set_sample jack_buffer i f (sample_conv (load_short mem ifp)))
  end.

(** The outer loop, line 88, run [n] times from frame [f]. *)
Fixpoint convert_frames (mem : Z -> byte) (n : nat) (f ifp : Z)
  (jack_buffer : port_buffers) : port_buffers :=
  match n with
  | O => jack_buffer
  | S n' =>
      let '(ifp', jack_buffer') :=
        convert_ports mem (Z.to_nat NPORTS) 0 ifp f jack_buffer in
      convert_frames mem n' (to_nframes (f + 1)) ifp' jack_buffer'
  end.

(** [deinterleave_and_convert], lines 82-93.  [f] runs from [offset] up to
    the [jack_nframes_t] sum [nframes + offset]. *)
Definition deinterleave_and_convert (mem : Z -> byte) (interleaved_frames : Z)
  (jack_buffer : port_buffers) (offset nframes : Z) : port_buffers :=
  convert_frames mem (Z.to_nat (to_nframes (nframes + offset) - offset))
    offset interleaved_frames jack_buffer.

(** One turn of the loop over the two spans, lines 113-121.  The triple is
    [(nframes, frames_written, buffer)]. *)
Definition process_span (rb : jack_ringbuffer_t) (v : jack_ringbuffer_data_t)
  (acc : Z * Z * port_buffers) : Z * Z * port_buffers :=
  let '(nframes, frames_written, buffer) := acc in
  let thisbuf := to_nframes (len v / bytes_per_frame) in
  let frames_required :=
    if thisbuf >? nframes then to_int nframes else to_int thisbuf in
  let buffer' :=
    deinterleave_and_convert (buf rb) (data_buf v) buffer
      (to_nframes frames_written) (to_nframes frames_required) in
  (to_nframes (nframes - frames_required),
   to_int (frames_written + frames_required),
   buffer').

(** [buffer[i][frames_written] = 0.0] for the [n] ports from [i],
    lines 128-130. *)
Fixpoint zero_ports (n : nat) (i frames_written : Z) (buffer : port_buffers)
  : port_buffers :=
  match n with
  | O => buffer
  | S n' => zero_ports n' (i + 1) frames_written
              (set_sample buffer i frames_written 0%float)
  end.

(** The silence loop, lines 127-133, run once per remaining frame. *)
Fixpoint fill_silence (n : nat) (frames_written : Z) (buffer : port_buffers)
  : Z * port_buffers :=
  match n with
  | O => (frames_written, buffer)
  | S n' =>
      fill_silence n' (to_int (frames_written + 1))
        (zero_ports (Z.to_nat NPORTS) 0 frames_written buffer)
  end.

(** [process], lines 95-135.  [buffer] holds what the port buffers held
    before the call; the result is the return value, the state and the port
    buffers after it. *)
Definition process (nframes : Z) (st : jack_state) (buffer : port_buffers)
  : Z * jack_state * port_buffers :=
  if negb (flush_please st =? 0) then
    let rb' :=
      jack_ringbuffer_read_advance (jackbuf st)
        (jack_ringbuffer_read_space (jackbuf st)) in
    let st' := set_flush_please (set_jackbuf st rb') 0 in
    (0, st', snd (fill_silence (Z.to_nat nframes) 0 buffer))
  else
    let '(v0, v1) := jack_ringbuffer_get_read_vector (jackbuf st) in
    let '(nframes', frames_written, buffer') :=
      process_span (jackbuf st) v1
        (process_span (jackbuf st) v0 (nframes, 0, buffer)) in
    let rb' :=
      jack_ringbuffer_read_advance (jackbuf st)
        (to_size_t (to_int (frames_written * bytes_per_frame))) in
    (0, set_jackbuf st rb',
     snd (fill_silence (Z.to_nat nframes') frames_written buffer')).

(** The three components of what [process] returns. *)
Definition process_return (nframes : Z) (st : jack_state)
  (buffer : port_buffers) : Z :=
  fst (fst (process nframes st buffer)).

Definition process_state (nframes : Z) (st : jack_state)
  (buffer : port_buffers) : jack_state :=
  snd (fst (process nframes st buffer)).

Definition process_output (nframes : Z) (st : jack_state)
  (buffer : port_buffers) : port_buffers :=
  snd (process nframes st buffer).

(** ** Flush, delay and the producer *)

(** [jack_flush], lines 280-283. *)
Definition jack_flush (st : jack_state) : jack_state := set_flush_please st 1.

(** [jack_delay], lines 285-313.  [clock] is what
    [get_absolute_time_in_fp] returns during the call; the result is the
    return value and the value stored through [the_delay]. *)
Definition jack_delay (st : jack_state) (clock : Z) : Z * Z :=
  let time_now := to_int64 clock in
  let delta := to_int64 (time_now - time_of_latest_transfer st) in
  let audio_occupancy_now :=
    to_size_t (jack_ringbuffer_read_space (jackbuf st) / bytes_per_frame) in
  let frames_processed_since_latest_latency_check :=
    Z.shiftr (to_int64 (delta * 44100)) 32 in
  let the_delay :=
    to_long
      (to_size_t
         (to_size_t (jack_latency st + audio_occupancy_now)
          - to_size_t frames_processed_since_latest_latency_check)) in
  (0, the_delay).



(** The [size_t] count [play] asks the ring buffer to take, line 319. *)
Definition bytes_to_transfer (samples : Z) : Z :=
  to_size_t (to_int (samples * bytes_per_frame)).

(** [play], lines 315-329.  [buf] is the caller's memory, [clock] what
    [get_absolute_time_in_fp] returns during the call; the result is the
    return value and the state after the call. *)
Definition play (st : jack_state) (buf : list byte) (samples clock : Z)
  : Z * jack_state :=
  let '(bytes_transferred, rb') :=
    jack_ringbuffer_write (jackbuf st) buf (bytes_to_transfer samples) in
  (0, set_time_of_latest_transfer (set_jackbuf st rb') (to_int64 clock)).

(** The count [play] logs on an overrun, line 326: what
    [jack_ringbuffer_write] returned. *)
Definition bytes_transferred (st : jack_state) (buf : list byte) (samples : Z)
  : Z :=
  fst (jack_ringbuffer_write (jackbuf st) buf (bytes_to_transfer samples)).

(** ** The queue as frames *)

(** The 16-bit sample the queue of bytes [q] holds at sample index [j]
    (little-endian), and the sample frame [f] holds for port [i]. *)
Definition queued_sample (q : list byte) (j : Z) : Z :=
  to_short (Z.of_N (Byte.to_N (nth (Z.to_nat (2 * j)) q x00))
            + 256 * Z.of_N (Byte.to_N (nth (Z.to_nat (2 * j + 1)) q x00))).

Definition frame_sample (q : list byte) (f i : Z) : Z :=
  queued_sample q (NPORTS * f + i).

(** ** Checking a property on a whole range of integers *)

(** [check_range k base P] checks [P] on [base, base + 2 ^ k). *)
Fixpoint check_range (k : nat) (base : Z) (P : Z -> bool) : bool :=
  match k with
  | O => P base
  | S k' => check_range k' base P && check_range k' (base + 2 ^ Z.of_nat k') P
  end.

(** What the exhaustive check of [sample_conv] tests at one sample: the
    result lies in [-1, 1]; below zero it is exactly [s / 32768]; from
    zero on it is within [2 ^ -25], half a unit in the last place of a
    [float] below one, of [s / 32767]. *)
Definition sample_conv_ok (s : Z) : bool :=
  let c := sample_conv s in
  PrimFloat.leb (-1) c && PrimFloat.leb c 1
  && (if s <? 0
      then Qeq_bool (F2Q c) (s # 32768)
      else Qle_bool (Qabs (F2Q c - (s # 32767))) (1 # 33554432)).

(** ** Concrete runs *)

(** [n] calls of [play] in a row, each with the same packet, the clock
    advancing by [tick] between them. *)
Fixpoint play_many (n : nat) (st : jack_state) (buf : list byte)
  (samples clock tick : Z) : jack_state :=
  match n with
  | O => st
  | S n' =>
      play_many n' (snd (play st buf samples clock)) buf samples
        (clock + tick) tick
  end.

(** Port buffers holding stale samples, to tell what a call wrote. *)
Definition stale_ports : port_buffers := fun _ _ => 1%float.

(** Two frames: the samples [0x0201], [0x0403], [0x0605], [0x0807]. *)
Definition two_frames : list byte := [x01; x02; x03; x04; x05; x06; x07; x08].

(** A packet of 352 silent frames, the size the player delivers. *)
Definition silent_packet : list byte := repeat x00 1408.

(** Two hundred frames of the sample [0x7f7f]. *)
Definition loud_frames : list byte := repeat x7f 800.

(** The driver after [jack_init]. *)
Definition st_fresh : jack_state := jack_init 1.

(** Two frames queued in the fresh buffer. *)
Definition st_two_frames : jack_state := snd (play st_fresh two_frames 2 100).

(** An overrun: the callback does not run while 745 packets arrive; the
    last one fits only in part, and the write cursor ends one byte short of
    the read cursor. *)
Definition st_overrun : jack_state :=
  play_many 745 st_fresh silent_packet 352 0 34283236.

(** The overrun flushed: the flush request, then the callback acting on it.
    The cursors now meet at the last byte of the storage. *)
Definition st_flushed : jack_state :=
  process_state 1024 (jack_flush st_overrun) stale_ports.

(** Two frames written after that flush: the write straddles the end of
    the storage, one byte before it and seven after. *)
Definition st_straddle : jack_state := snd (play st_flushed two_frames 2 200).

(** The buffer one packet before the overrun: 1023 bytes are free. *)
Definition st_nearly_full : jack_state :=
  play_many 744 st_fresh silent_packet 352 0 34283236.

(** A flush requested with two frames queued, then two hundred frames
    submitted before the callback runs. *)
Definition st_flush_then_play : jack_state :=
  snd (play (jack_flush st_two_frames) loud_frames 200 300).

(** Both cursors one frame before the end of the storage, where they
    stand after 262143 frames went through the buffer. *)
Definition st_at_end : jack_state :=
  set_jackbuf st_fresh
    (mk_ringbuffer (fun _ => x00) 1048572 1048572 1048576 1048575).

(** A memory that holds [two_frames] from address [0] on. *)
Definition two_frames_mem : Z -> byte := fun a => nth (Z.to_nat a) two_frames x00.

(** ** The latency tracker *)

(** The library's [jack_latency_range_t]: two [jack_nframes_t]. *)
Record jack_latency_range_t : Type := mk_range {
  range_min : Z;
  range_max : Z
}.

Definition set_jack_latency (st : jack_state) (v : Z) : jack_state :=
  {| jackbuf := jackbuf st;
     flush_please := flush_please st;
     jack_latency := v;
     time_of_latest_transfer := time_of_latest_transfer st;
     client := client st |}.

(** The loop of [graph], lines 140-144, for the [n] ports from [i]:
    [jack_port_get_latency_range] stores [reported i] in
    [latest_latency_range[i]], and [latency += latest_latency_range[i].max]
    adds it to the [int] in unsigned arithmetic.  The pair is
    [(latest_latency_range, latency)]. *)
Fixpoint graph_ports (n : nat) (i : Z) (reported : Z -> jack_latency_range_t)
  (acc : (Z -> jack_latency_range_t) * Z) : (Z -> jack_latency_range_t) * Z :=
  match n with
  | O => acc
  | S n' =>
      let '(latest_latency_range, latency) := acc in
      let latest_latency_range' :=
        fun j => if j =? i then reported i else latest_latency_range j in
      graph_ports n' (i + 1) reported
        (latest_latency_range',
         to_int (to_nframes (to_nframes latency
                             + range_max (latest_latency_range' i))))
  end.

(** [graph], lines 137-149.  [reported i] is the range the library reports
    for [port[i]] during the call; the result is the return value, the
    state and the static [latest_latency_range] after it.  [latency /=
    NPORTS] is the division of two [int], which truncates. *)
Definition graph (st : jack_state)
  (latest_latency_range reported : Z -> jack_latency_range_t)
  : Z * jack_state * (Z -> jack_latency_range_t) :=
  let '(latest_latency_range', latency) :=
    graph_ports (Z.to_nat NPORTS) 0 reported (latest_latency_range, 0) in
  let latency' := Z.quot latency NPORTS in
  (0, set_jack_latency st (to_nframes latency'), latest_latency_range').

Definition graph_state (st : jack_state)
  (latest_latency_range reported : Z -> jack_latency_range_t) : jack_state :=
  snd (fst (graph st latest_latency_range reported)).

(** ** The frames a callback takes *)

(** The number of frames the loop over the two spans converts, lines
    112-122: as many whole frames as the first span holds, at most
    [nframes], then as many as the second span holds, at most what is
    left to deliver. *)
Definition frames_taken (rb : jack_ringbuffer_t) (nframes : Z) : Z :=
  let '(v0, v1) := jack_ringbuffer_get_read_vector rb in
  let k0 := Z.min (len v0 / bytes_per_frame) nframes in
  k0 + Z.min (len v1 / bytes_per_frame) (nframes - k0).

(** ** Runs of the driver *)

(** The ranges the library may report: [jack_nframes_t] values for each
    of the [NPORTS] ports. *)
Definition ranges_in_type (reported : Z -> jack_latency_range_t) : Prop :=
  forall i, 0 <= i < NPORTS ->
    0 <= range_min (reported i) < 2 ^ 32 /\ 0 <= range_max (reported i) < 2 ^ 32.

(** One call into the driver after [jack_init], within what C defines:
    the producer with a buffer that holds the [samples] frames it
    announces, the callback for at most [INT_MAX] frames, a flush request,
    or the graph-order callback. *)
Inductive driver_step : jack_state -> jack_state -> Prop :=
| step_play st buf samples clock :
    0 <= samples -> samples * bytes_per_frame <= INT_MAX ->
    bytes_per_frame * samples <= Z.of_nat (length buf) ->
    driver_step st (snd (play st buf samples clock))
| step_process st nframes buffer :
    0 <= nframes <= INT_MAX ->
    driver_step st (process_state nframes st buffer)
| step_flush st :
    driver_step st (jack_flush st)
| step_graph st latest reported :
    ranges_in_type reported ->
    driver_step st (graph_state st latest reported).

(** The states the driver reaches from [jack_init handle]. *)
Inductive reachable (handle : Z) : jack_state -> Prop :=
| reach_init : reachable handle (jack_init handle)
| reach_step st st' :
    reachable handle st -> driver_step st st' -> reachable handle st'.

(** What every call keeps of the state [jack_init] leaves: the ring
    buffer well formed with its storage of 1048576 bytes, the flag a
    truth value, the latency and the time within their types, the session
    that was opened. *)
Definition driver_invariant (handle : Z) (st : jack_state) : Prop :=
  wf (jackbuf st)
  /\ size (jackbuf st) = 1048576
  /\ (flush_please st = 0 \/ flush_please st = 1)
  /\ 0 <= jack_latency st < 2 ^ 32
  /\ INT64_MIN <= time_of_latest_transfer st <= INT64_MAX
  /\ client st = Some handle.

(** A call that does not overrun: as [driver_step], the frames of a
    [play] all fitting the free space of the ring buffer. *)
Inductive fitting_step : jack_state -> jack_state -> Prop :=
| fit_play st buf samples clock :
    0 <= samples ->
    bytes_per_frame * samples <= Z.of_nat (length buf) ->
    bytes_per_frame * samples <= jack_ringbuffer_write_space (jackbuf st) ->
    fitting_step st (snd (play st buf samples clock))
| fit_process st nframes buffer :
    0 <= nframes <= INT_MAX ->
    fitting_step st (process_state nframes st buffer)
| fit_flush st :
    fitting_step st (jack_flush st)
| fit_graph st latest reported :
    ranges_in_type reported ->
    fitting_step st (graph_state st latest reported).

(** The states the driver reaches from [jack_init handle] without an
    overrun. *)
Inductive reachable_fitting (handle : Z) : jack_state -> Prop :=
| fitting_init : reachable_fitting handle (jack_init handle)
| fitting_next st st' :
    reachable_fitting handle st -> fitting_step st st' ->
    reachable_fitting handle st'.

(** The calls that may come between two callbacks: [play], [jack_flush]
    and [graph], any number of them. *)
Inductive between_callbacks : jack_state -> jack_state -> Prop :=
| between_none st : between_callbacks st st
| between_play st st' buf samples clock :
    between_callbacks st st' ->
    0 <= samples -> samples * bytes_per_frame <= INT_MAX ->
    bytes_per_frame * samples <= Z.of_nat (length buf) ->
    between_callbacks st (snd (play st' buf samples clock))
| between_flush st st' :
    between_callbacks st st' -> between_callbacks st (jack_flush st')
| between_graph st st' latest reported :
    between_callbacks st st' -> ranges_in_type reported ->
    between_callbacks st (graph_state st' latest reported).

(** Port latencies for the concrete runs: 512 and 1024 frames at most. *)
Definition no_ranges : Z -> jack_latency_range_t := fun _ => mk_range 0 0.
Definition two_ranges : Z -> jack_latency_range_t :=
  fun i => if i =? 0 then mk_range 256 512 else mk_range 256 1024.

(** ** Starting the driver *)

(** [jack_init], lines 159-260, with its ways out: [die] for a failed
    step, or [return 0] with the driver's state set up.  What the
    configuration and the JACK library answer during the call are given as
    arguments. *)
Module Startup.
Import String.

(** The fields of [config] the function reads after
    [parse_general_audio_options] (line 171): the settings file, [None] for
    [config.cfg == NULL], with what [config_lookup_string] finds in it for
    [jack.client_name] and [jack.autoconnect_pattern], and the two strings
    [config] holds, [None] for the null pointer. *)
Record settings_file : Type := mk_settings {
  file_client_name : option string;
  file_autoconnect_pattern : option string
}.

Record config_t : Type := mk_config {
  cfg : option settings_file;
  jack_client_name : option string;
  jack_autoconnect_pattern : option string
}.

(** The answers of the JACK library: whether [jack_ringbuffer_create]
    returned a buffer, the handle [jack_client_open] returns for a client
    name ([None] for the null pointer), the sample rate of the server, the
    status of [jack_activate], the array [jack_get_ports] returns for a
    pattern (its names up to the terminating null pointer, [None] for a
    null pointer in place of the array) and the status of [jack_connect]
    for a source and a destination port. *)
Record jack_library : Type := mk_library {
  ringbuffer_created : bool;
  jack_client_open : string -> option Z;
  jack_get_sample_rate : Z;
  jack_activate : Z;
  jack_get_ports : string -> option (list string);
  jack_connect : string -> string -> Z
}.

(** The calls of [die], lines 192, 199, 203 and 216. *)
Inductive die_reason : Type :=
| cannot_allocate_ringbuffer (bytes : Z)
| could_not_start_server
| wrong_sample_rate (rate : Z)
| could_not_activate (name : string).

(** The calls of [inform], lines 235, 242, 247 and 253. *)
Inductive message : Type :=
| connection_exists (source target : string)
| connect_error (err : Z) (source target : string)
| no_matching_port (pattern source : string)
| additional_port.

(** How the call ends: in [die]; in a read through a null [port_list] or
    past its terminator, which C does not define; or in [return], with the
    value returned, the state of the driver, the connections asked of
    [jack_connect] and the messages, in the order of the calls.  [Unfinished]
    is the bounded loop over the additional ports stopped short. *)
Inductive outcome : Type :=
| Died (reason : die_reason)
| Undefined
| Unfinished
| Returned (ret : Z) (st : jack_state) (connections : list (string * string))
    (log : list message).

Definition EEXIST : Z := 17.

(** [port_name], line 65. *)
Definition port_name (i : Z) : string :=
  if i =? 0 then "out_L"%string else "out_R"%string.

(** [sprintf(full_port_name[i], "%s:%s", config.jack_client_name,
    port_name[i])], line 228. *)
Definition full_port_name (name : string) (i : Z) : string :=
  (name ++ ":" ++ port_name i)%string.

(** Lines 176-188: the names after the settings file was read. *)
Definition client_name (c : config_t) : string :=
  let from_file :=
    match cfg c with
    | Some f =>
        match file_client_name f with
        | Some str => Some str
        | None => jack_client_name c
        end
    | None => jack_client_name c
    end in
  match from_file with
  | Some str => str
  | None => "shairport-sync"%string
  end.

Definition autoconnect_pattern (c : config_t) : option string :=
  match cfg c with
  | Some f =>
      match file_autoconnect_pattern f with
      | Some str => Some str
      | None => jack_autoconnect_pattern c
      end
  | None => jack_autoconnect_pattern c
  end.

(** [port_list[i]]: a name, the terminating null pointer ([Some None]),
    or nothing that the array holds ([None]). *)
Definition read_port_list (port_list : list string) (i : Z)
  : option (option string) :=
  if i <? 0 then None
  else if i <? Z.of_nat (List.length port_list)
  then Some (nth_error port_list (Z.to_nat i))
  else if i =? Z.of_nat (List.length port_list) then Some None
  else None.

(** The loop of lines 225-251 for the [n] ports from [i]. *)
Fixpoint connect_ports (lib : jack_library) (name pattern : string)
  (port_list : list string) (n : nat) (i : Z)
  (acc : list (string * string) * list message)
  : option (list (string * string) * list message) :=
  match n with
  | O => Some acc
  | S n' =>
      let '(connections, log) := acc in
      let source := full_port_name name i in
      match read_port_list port_list i with
      | None => None
      | Some (Some target) =>
          let err := jack_connect lib source target in
          let log' :=
            if err =? EEXIST
            then log ++ [connection_exists source target]
            else if err =? 0 then log
            else log ++ [connect_error err source target] in
          connect_ports lib name pattern port_list n' (i + 1)
            (connections ++ [(source, target)], log')
      | Some None =>
          connect_ports lib name pattern port_list n' (i + 1)
            (connections, log ++ [no_matching_port pattern source])
      end
  end.

(** The loop of lines 252-254, [while (port_list[i++] != NULL)], run at
    most [fuel] times. *)
Fixpoint additional_ports (fuel : nat) (port_list : list string) (i : Z)
  (log : list message) : option (option (list message)) :=
  match fuel with
  | O => Some None
  | S fuel' =>
      match read_port_list port_list i with
      | None => None
      | Some None => Some (Some log)
      | Some (Some _) =>
          additional_ports fuel' port_list (i + 1) (log ++ [additional_port])
      end
  end.

(** [jack_init], lines 159-260. *)
Definition jack_init (c : config_t) (lib : jack_library) : outcome :=
  let name := client_name c in
  if negb (ringbuffer_created lib)
  then Died (cannot_allocate_ringbuffer buffer_size)
  else
    match jack_client_open lib name with
    | None => Died could_not_start_server
    | Some handle =>
        let sample_rate := to_nframes (jack_get_sample_rate lib) in
        if negb (sample_rate =? 44100) then Died (wrong_sample_rate sample_rate)
        else if negb (jack_activate lib =? 0)
        then Died (could_not_activate name)
        else
          let st :=
            {| jackbuf := jack_ringbuffer_create buffer_size;
               flush_please := 0;
               jack_latency := 0;
               time_of_latest_transfer := 0;
               client := Some handle |} in
          match autoconnect_pattern c with
          | None => Returned 0 st [] []
          | Some pattern =>
              match jack_get_ports lib pattern with
              | None => Undefined
              | Some port_list =>
                  match connect_ports lib name pattern port_list
                          (Z.to_nat NPORTS) 0 ([], []) with
                  | None => Undefined
                  | Some (connections, log) =>
                      match additional_ports (S (List.length port_list))
                              port_list NPORTS log with
                      | None => Undefined
                      | Some None => Unfinished
                      | Some (Some log') => Returned 0 st connections log'
                      end
                  end
              end
          end
    end.

(** A configuration without settings file, and servers for the concrete
    runs: one at 48000 Hz, one at 44100 Hz with three playback ports, the
    second of them connected already. *)
Definition plain_config : config_t := mk_config None None None.

Definition playback_pattern : string := "system:playback_".

Definition three_playback_ports : list string :=
  ["system:playback_1"; "system:playback_2"; "system:playback_3"]%string.

Definition one_playback_port : list string := ["system:playback_1"%string].

Definition autoconnect_config : config_t :=
  mk_config (Some (mk_settings None (Some playback_pattern))) None None.

Definition server_48k : jack_library :=
  mk_library true (fun _ => Some 7) 48000 0 (fun _ => None) (fun _ _ => 0).

Definition server_three_ports : jack_library :=
  mk_library true (fun _ => Some 7) 44100 0
    (fun _ => Some three_playback_ports)
    (fun source _ =>
       if String.eqb source "shairport-sync:out_R" then EEXIST else 0).

Definition server_one_port : jack_library :=
  mk_library true (fun _ => Some 7) 44100 0
    (fun _ => Some one_playback_port) (fun _ _ => 0).

End Startup.

(** * Facts *)

(** ** Machine integers *)

Lemma to_int_small x : - 2 ^ 31 <= x <= INT_MAX -> to_int x = x.
Proof.
  unfold to_int, wrap_signed, INT_MAX; intros H.
  rewrite Z.mod_small; lia.
Qed.

Lemma to_nframes_small x : 0 <= x < 2 ^ 32 -> to_nframes x = x.
Proof. unfold to_nframes, wrap_unsigned; intros H; apply Z.mod_small; lia. Qed.

Lemma to_size_t_small x : 0 <= x < 2 ^ 64 -> to_size_t x = x.
Proof. unfold to_size_t, wrap_unsigned; intros H; apply Z.mod_small; lia. Qed.

Lemma to_int64_small x : INT64_MIN <= x <= INT64_MAX -> to_int64 x = x.
Proof.
  unfold to_int64, wrap_signed, INT64_MIN, INT64_MAX; intros H.
  rewrite Z.mod_small; lia.
Qed.

(** Converting a [size_t] result to [long] undoes the wrap of the unsigned
    arithmetic. *)
Lemma to_long_to_size_t x : to_long (to_size_t x) = to_long x.
Proof.
  unfold to_long, to_size_t, wrap_signed, wrap_unsigned.
  f_equal.
  rewrite Z.add_mod_idemp_l by lia. reflexivity.
Qed.

Lemma to_size_t_sub x y : to_size_t (to_size_t x - to_size_t y) = to_size_t (x - y).
Proof.
  unfold to_size_t, wrap_unsigned.
  rewrite Zminus_mod_idemp_l, Zminus_mod_idemp_r. reflexivity.
Qed.

Lemma to_long_small x : INT64_MIN <= x <= INT64_MAX -> to_long x = x.
Proof. exact (to_int64_small x). Qed.

(** ** Remainders of values one period away from the range *)

Lemma mod_above n x : n <= x < 2 * n -> x mod n = x - n.
Proof. intros H. symmetry. apply Z.mod_unique with (q := 1); lia. Qed.

Lemma mod_below n x : - n <= x < 0 -> x mod n = x + n.
Proof. intros H. symmetry. apply Z.mod_unique with (q := -1); lia. Qed.

Lemma check_range_sound (P : Z -> bool) (k : nat) :
  forall base, check_range k base P = true ->
  forall x, base <= x < base + 2 ^ Z.of_nat k -> P x = true.
Proof.
  induction k as [|k IH]; intros base Hc x Hx.
  - simpl in *. replace x with base by lia. exact Hc.
  - cbn [check_range] in Hc. apply andb_prop in Hc. destruct Hc as [H1 H2].
    rewrite Nat2Z.inj_succ, Z.pow_succ_r in Hx by lia.
    destruct (Z_lt_ge_dec x (base + 2 ^ Z.of_nat k)).
    + apply (IH base); [assumption | lia].
    + apply (IH (base + 2 ^ Z.of_nat k)); [assumption | lia].
Qed.

(** Case analysis on every integer comparison of the goal. *)
Ltac case_cmp :=
  repeat match goal with
    | |- context [?x <? ?y] => destruct (Z.ltb_spec x y)
    | |- context [?x <=? ?y] => destruct (Z.leb_spec x y)
    | |- context [?x =? ?y] => destruct (Z.eqb_spec x y)
    | |- context [?x >? ?y] => rewrite (Z.gtb_ltb x y)
    end;
  cbn [andb orb negb]; try lia.

(** ** The ring buffer *)

Section RingbufferFacts.

Variable rb : jack_ringbuffer_t.
Hypothesis Hwf : wf rb.

Lemma size_bounds : 4 <= size rb <= 2 ^ 30.
Proof.
  destruct Hwf as (k & Hk & Hs & _). rewrite Hs.
  change 4 with (2 ^ 2).
  split; apply Z.pow_le_mono_r; lia.
Qed.

Lemma size_frames : size rb mod bytes_per_frame = 0.
Proof.
  destruct Hwf as (k & Hk & Hs & _). rewrite Hs.
  replace k with (2 + (k - 2)) by lia.
  rewrite Z.pow_add_r by lia.
  change (2 ^ 2) with bytes_per_frame.
  rewrite Z.mul_comm. apply Z_mod_mult.
Qed.

Lemma ptr_bounds :
  0 <= read_ptr rb < size rb /\ 0 <= write_ptr rb < size rb.
Proof. destruct Hwf as (k & _ & _ & _ & Hr & Hw). auto. Qed.

Lemma mask_mod x : Z.land x (size_mask rb) = x mod size rb.
Proof.
  destruct Hwf as (k & Hk & Hs & Hm & _). rewrite Hm, Hs.
  replace (2 ^ k - 1) with (Z.ones k) by (rewrite Z.ones_equiv; lia).
  apply Z.land_ones. lia.
Qed.

Lemma read_space_mod :
  jack_ringbuffer_read_space rb = (write_ptr rb - read_ptr rb) mod size rb.
Proof.
  pose proof size_bounds. pose proof ptr_bounds.
  unfold jack_ringbuffer_read_space.
  destruct (write_ptr rb >? read_ptr rb) eqn:E.
  - rewrite Z.mod_small; lia.
  - rewrite mask_mod.
    replace (write_ptr rb - read_ptr rb + size rb)
      with (write_ptr rb - read_ptr rb + 1 * size rb) by lia.
    apply Z_mod_plus_full.
Qed.

Lemma read_space_bounds : 0 <= jack_ringbuffer_read_space rb < size rb.
Proof.
  pose proof size_bounds. rewrite read_space_mod. apply Z.mod_pos_bound. lia.
Qed.

Lemma write_space_eq :
  jack_ringbuffer_write_space rb
  = size rb - 1 - jack_ringbuffer_read_space rb.
Proof.
  pose proof size_bounds. pose proof ptr_bounds.
  unfold jack_ringbuffer_write_space, jack_ringbuffer_read_space.
  destruct (write_ptr rb >? read_ptr rb) eqn:E.
  - rewrite mask_mod, Z.mod_small; lia.
  - destruct (write_ptr rb <? read_ptr rb) eqn:E'.
    + rewrite mask_mod, Z.mod_small; lia.
    + replace (write_ptr rb) with (read_ptr rb) by lia.
      rewrite mask_mod, Z.sub_diag, Z.add_0_l, Z_mod_same_full. lia.
Qed.

(** The two spans [jack_ringbuffer_get_read_vector] reports. *)
Lemma get_read_vector_spans :
  let r := read_ptr rb in
  let n := jack_ringbuffer_read_space rb in
  jack_ringbuffer_get_read_vector rb
  = if r + n >? size rb
    then (mk_data r (size rb - r), mk_data 0 (r + n - size rb))
    else (mk_data r n, mk_data 0 0).
Proof.
  pose proof size_bounds. pose proof ptr_bounds. pose proof read_space_bounds.
  unfold jack_ringbuffer_get_read_vector.
  fold (jack_ringbuffer_read_space rb). cbv zeta.
  destruct (read_ptr rb + jack_ringbuffer_read_space rb >? size rb) eqn:E;
    [|reflexivity].
  rewrite mask_mod, mod_above by lia. reflexivity.
Qed.

End RingbufferFacts.

(** A cursor on a frame boundary stays on one when it moves by whole
    frames, also around the end of the storage. *)
Lemma cursor_stays_on_grid rb x d :
  wf rb -> x mod bytes_per_frame = 0 -> d mod bytes_per_frame = 0 ->
  ((x + d) mod size rb) mod bytes_per_frame = 0.
Proof.
  intros Hwf Hx Hd.
  pose proof (size_bounds rb Hwf) as Hs.
  pose proof (size_frames rb Hwf) as Hs4.
  rewrite Z.mod_mod_divide
    by (apply Z.mod_divide; [unfold bytes_per_frame; lia | exact Hs4]).
  rewrite Z.add_mod, Hx, Hd by (unfold bytes_per_frame; lia). reflexivity.
Qed.

Lemma map_seq_shift {A : Type} (f : nat -> A) (n : nat) :
  forall c s, map f (seq (c + s) n) = map (fun i => f (c + i)%nat) (seq s n).
Proof.
  induction n as [|n IH]; intros c s; cbn; [reflexivity|].
  f_equal. replace (S (c + s)) with (c + S s)%nat by lia. apply IH.
Qed.

Section RingbufferMoves.

Variable rb : jack_ringbuffer_t.
Hypothesis Hwf : wf rb.

Lemma read_advance_wf cnt : wf (jack_ringbuffer_read_advance rb cnt).
Proof.
  pose proof (size_bounds rb Hwf) as Hs.
  destruct Hwf as (k & Hk & Hsz & Hm & Hr & Hw).
  exists k. cbn. repeat split; try assumption; try lia;
    rewrite (mask_mod rb Hwf); apply Z.mod_pos_bound; lia.
Qed.

Lemma read_advance_space cnt :
  0 <= cnt <= jack_ringbuffer_read_space rb ->
  jack_ringbuffer_read_space (jack_ringbuffer_read_advance rb cnt)
  = jack_ringbuffer_read_space rb - cnt.
Proof.
  intros Hc.
  pose proof (size_bounds rb Hwf). pose proof (read_space_bounds rb Hwf).
  rewrite (read_space_mod _ (read_advance_wf cnt)). cbn.
  rewrite (mask_mod rb Hwf), Zminus_mod_idemp_r.
  replace (write_ptr rb - (read_ptr rb + cnt))
    with (write_ptr rb - read_ptr rb - cnt) by lia.
  rewrite <- Zminus_mod_idemp_l, <- (read_space_mod rb Hwf).
  apply Z.mod_small. lia.
Qed.

Lemma read_advance_byte cnt i :
  unread_byte (jack_ringbuffer_read_advance rb cnt) i
  = unread_byte rb (cnt + i).
Proof.
  unfold unread_byte. cbn.
  rewrite (mask_mod rb Hwf), Zplus_mod_idemp_l.
  f_equal. f_equal. lia.
Qed.

(** Advancing the read cursor drops the oldest bytes of the queue. *)
Lemma read_advance_contents cnt :
  0 <= cnt <= jack_ringbuffer_read_space rb ->
  contents (jack_ringbuffer_read_advance rb cnt)
  = skipn (Z.to_nat cnt) (contents rb).
Proof.
  intros Hc. unfold contents.
  rewrite read_advance_space by assumption.
  rewrite skipn_map, skipn_seq.
  replace (Z.to_nat (jack_ringbuffer_read_space rb) - Z.to_nat cnt)%nat
    with (Z.to_nat (jack_ringbuffer_read_space rb - cnt)) by lia.
  rewrite <- (Nat.add_0_r (Z.to_nat cnt)).
  rewrite (map_seq_shift _ _ (Z.to_nat cnt) 0%nat). apply map_ext. intros i.
  rewrite read_advance_byte. f_equal. lia.
Qed.

(** What [jack_ringbuffer_write] does: it takes [n], the smaller of the
    count and the free space, moves the write cursor [n] bytes on and
    stores the first [n] bytes of the source behind the old cursor. *)
Lemma write_spec src cnt :
  0 <= cnt ->
  let n := Z.min cnt (jack_ringbuffer_write_space rb) in
  let rb' := snd (jack_ringbuffer_write rb src cnt) in
  fst (jack_ringbuffer_write rb src cnt) = n /\
  size rb' = size rb /\ size_mask rb' = size_mask rb /\
  read_ptr rb' = read_ptr rb /\
  write_ptr rb' = (write_ptr rb + n) mod size rb /\
  forall a, 0 <= a < size rb ->
    buf rb' a
    = if (a - write_ptr rb) mod size rb <? n
      then nth (Z.to_nat ((a - write_ptr rb) mod size rb)) src x00
      else buf rb a.
Proof.
  intros Hcnt.
  pose proof (size_bounds rb Hwf) as Hs. pose proof (ptr_bounds rb Hwf) as Hp.
  pose proof (read_space_bounds rb Hwf) as Hrs.
  pose proof (write_space_eq rb Hwf) as Hws.
  assert (Hmod : forall a, 0 <= a < size rb ->
            (a - write_ptr rb) mod size rb
            = if a <? write_ptr rb then a - write_ptr rb + size rb
              else a - write_ptr rb).
  { intros a Ha. destruct (a <? write_ptr rb) eqn:E.
    - apply mod_below; lia.
    - apply Z.mod_small; lia. }
  cbv zeta. unfold jack_ringbuffer_write.
  set (free := jack_ringbuffer_write_space rb) in *.
  destruct (free =? 0) eqn:Efree.
  { replace (Z.min cnt free) with 0 by lia. cbn.
    rewrite Z.add_0_r, Z.mod_small by lia.
    repeat split; try reflexivity.
    intros a Ha. rewrite Hmod by assumption.
    destruct (Z.ltb_spec a (write_ptr rb)); now case_cmp. }
  set (n := if cnt >? free then free else cnt).
  assert (Hn : n = Z.min cnt free) by (unfold n; destruct (cnt >? free) eqn:E; lia).
  assert (Hn0 : 0 <= n <= size rb - 1) by lia.
  rewrite <- Hn. clearbody n.
  destruct (write_ptr rb + n >? size rb) eqn:Ewrap.
  - (* the copy wraps around the end of the storage *)
    rewrite !(mask_mod rb Hwf).
    rewrite (mod_above (size rb) (write_ptr rb + n)) by lia.
    replace (write_ptr rb + (size rb - write_ptr rb)) with (size rb) by lia.
    rewrite Z_mod_same_full.
    destruct (write_ptr rb + n - size rb =? 0) eqn:En2; [lia|].
    cbn.
    repeat split; try reflexivity.
    + rewrite Z.mod_small by lia. reflexivity.
    + intros a Ha. rewrite Hmod by assumption.
      destruct (Z.ltb_spec a (write_ptr rb)); unfold memcpy;
      case_cmp; try reflexivity; f_equal; lia.
  - (* a single copy *)
    rewrite !(mask_mod rb Hwf).
    cbn.
    repeat split; try reflexivity.
    intros a Ha. rewrite Hmod by assumption.
      destruct (Z.ltb_spec a (write_ptr rb)); unfold memcpy;
    case_cmp; try reflexivity; f_equal; lia.
Qed.

End RingbufferMoves.

Lemma map_nth_firstn {A : Type} (d : A) :
  forall (n : nat) (l : list A), (n <= length l)%nat ->
  map (fun j => nth j l d) (seq 0 n) = firstn n l.
Proof.
  induction n as [|n IH]; intros l Hl; [reflexivity|].
  destruct l as [|x l]; [cbn in Hl; lia|].
  cbn [seq map firstn nth]. f_equal.
  rewrite <- seq_shift, map_map. cbn [nth].
  apply IH. cbn in Hl. lia.
Qed.

Section RingbufferWrite.

Variable rb : jack_ringbuffer_t.
Hypothesis Hwf : wf rb.
Variable src : list byte.
Variable cnt : Z.
Hypothesis Hcnt : 0 <= cnt.

Let n := Z.min cnt (jack_ringbuffer_write_space rb).
Let rb' := snd (jack_ringbuffer_write rb src cnt).

Lemma write_count_bounds :
  0 <= n <= size rb - 1 - jack_ringbuffer_read_space rb.
Proof.
  pose proof (read_space_bounds rb Hwf). pose proof (write_space_eq rb Hwf).
  unfold n. lia.
Qed.

Lemma write_wf : wf rb'.
Proof.
  pose proof (size_bounds rb Hwf) as Hs.
  destruct (write_spec rb Hwf src cnt Hcnt) as (_ & H1 & H2 & H3 & H4 & _).
  fold rb' n in H1, H2, H3, H4.
  destruct Hwf as (k & Hk & Hsz & Hm & Hr & Hw).
  exists k. rewrite H1, H2, H3, H4. repeat split; try assumption; try lia;
    apply Z.mod_pos_bound; lia.
Qed.

Lemma write_read_space :
  jack_ringbuffer_read_space rb' = jack_ringbuffer_read_space rb + n.
Proof.
  pose proof (size_bounds rb Hwf) as Hs.
  pose proof (read_space_bounds rb Hwf) as Hrs.
  pose proof write_count_bounds as Hn.
  destruct (write_spec rb Hwf src cnt Hcnt) as (_ & H1 & H2 & H3 & H4 & _).
  fold rb' n in H1, H2, H3, H4.
  rewrite (read_space_mod rb' write_wf), H1, H3, H4.
  rewrite Zminus_mod_idemp_l.
  replace (write_ptr rb + n - read_ptr rb)
    with (write_ptr rb - read_ptr rb + n) by lia.
  rewrite <- Zplus_mod_idemp_l, <- (read_space_mod rb Hwf).
  apply Z.mod_small. lia.
Qed.

Lemma write_unread_byte i :
  0 <= i < jack_ringbuffer_read_space rb + n ->
  unread_byte rb' i
  = if i <? jack_ringbuffer_read_space rb
    then unread_byte rb i
    else nth (Z.to_nat (i - jack_ringbuffer_read_space rb)) src x00.
Proof.
  intros Hi.
  pose proof (size_bounds rb Hwf) as Hs.
  pose proof (read_space_bounds rb Hwf) as Hrs.
  pose proof write_count_bounds as Hn.
  destruct (write_spec rb Hwf src cnt Hcnt) as (_ & H1 & H2 & H3 & H4 & H5).
  fold rb' n in H1, H2, H3, H4, H5.
  unfold unread_byte. rewrite H1, H3.
  rewrite H5 by (apply Z.mod_pos_bound; lia).
  rewrite Zminus_mod_idemp_l.
  replace (read_ptr rb + i - write_ptr rb)
    with (i - (write_ptr rb - read_ptr rb)) by lia.
  rewrite <- Zminus_mod_idemp_r, <- (read_space_mod rb Hwf).
  destruct (Z.ltb_spec i (jack_ringbuffer_read_space rb)).
  - rewrite mod_below by lia. now case_cmp.
  - rewrite Z.mod_small by lia. now case_cmp.
Qed.

(** A write appends to the queue what fits of the source. *)
Lemma write_contents :
  n <= Z.of_nat (length src) ->
  contents rb' = contents rb ++ firstn (Z.to_nat n) src.
Proof.
  intros Hlen.
  pose proof (read_space_bounds rb Hwf) as Hrs.
  pose proof write_count_bounds as Hn.
  unfold contents. rewrite write_read_space.
  rewrite Z2Nat.inj_add by lia. rewrite seq_app, map_app. f_equal.
  - apply map_ext_in. intros i Hi. apply in_seq in Hi.
    rewrite write_unread_byte by lia. now case_cmp.
  - rewrite <- (Nat.add_0_r (Z.to_nat (jack_ringbuffer_read_space rb))).
    rewrite Nat.add_0_l at 1.
    rewrite (map_seq_shift _ _ (Z.to_nat (jack_ringbuffer_read_space rb)) 0%nat).
    rewrite <- (map_nth_firstn x00) by lia.
    apply map_ext_in. intros i Hi. apply in_seq in Hi.
    rewrite write_unread_byte by lia.
    case_cmp. f_equal. lia.
Qed.

End RingbufferWrite.

(** ** The loops of the consumer *)

Lemma convert_ports_two mem ifp f jack_buffer :
  convert_ports mem (Z.to_nat NPORTS) 0 ifp f jack_buffer
  = (ifp + 2 + 2,
     set_sample
       (set_sample jack_buffer 0 f (sample_conv (load_short mem ifp)))
       1 f (sample_conv (load_short mem (ifp + 2)))).
Proof. reflexivity. Qed.

(** [n] frames converted from frame [f0] on: each port's sample of each of
    these frames is the conversion of the corresponding 16-bit sample of
    the source, and nothing else changes. *)
Lemma convert_frames_spec mem :
  forall (n : nat) (f0 ifp : Z) (jack_buffer : port_buffers) (i f : Z),
  0 <= f0 -> f0 + Z.of_nat n < 2 ^ 32 ->
  convert_frames mem n f0 ifp jack_buffer i f
  = if (0 <=? i) && (i <? NPORTS) && (f0 <=? f) && (f <? f0 + Z.of_nat n)
    then sample_conv (load_short mem (ifp + bytes_per_frame * (f - f0) + 2 * i))
    else jack_buffer i f.
Proof.
  induction n as [|n IH]; intros f0 ifp jack_buffer i f Hf0 Hn.
  - cbn [convert_frames]. now case_cmp.
  - cbn [convert_frames]. rewrite convert_ports_two.
    rewrite to_nframes_small by lia.
    rewrite IH by lia. unfold set_sample, NPORTS, bytes_per_frame.
    case_cmp; try reflexivity; subst; do 2 f_equal; lia.
Qed.

Lemma deinterleave_and_convert_spec mem ifp jack_buffer offset nframes i f :
  0 <= offset -> 0 <= nframes -> offset + nframes < 2 ^ 32 ->
  deinterleave_and_convert mem ifp jack_buffer offset nframes i f
  = if (0 <=? i) && (i <? NPORTS) && (offset <=? f) && (f <? offset + nframes)
    then sample_conv
           (load_short mem (ifp + bytes_per_frame * (f - offset) + 2 * i))
    else jack_buffer i f.
Proof.
  intros Ho Hn Hsum. unfold deinterleave_and_convert.
  rewrite to_nframes_small by lia.
  rewrite convert_frames_spec by lia.
  replace (Z.of_nat (Z.to_nat (nframes + offset - offset))) with nframes by lia.
  reflexivity.
Qed.

Lemma zero_ports_two frames_written buffer :
  zero_ports (Z.to_nat NPORTS) 0 frames_written buffer
  = set_sample (set_sample buffer 0 frames_written 0%float)
      1 frames_written 0%float.
Proof. reflexivity. Qed.

(** The silence loop zeroes [n] frames from [frames_written] on, in every
    port, and nothing else. *)
Lemma fill_silence_spec :
  forall (n : nat) (frames_written : Z) (buffer : port_buffers) (i f : Z),
  0 <= frames_written -> frames_written + Z.of_nat n <= INT_MAX ->
  snd (fill_silence n frames_written buffer) i f
  = if (0 <=? i) && (i <? NPORTS) && (frames_written <=? f)
       && (f <? frames_written + Z.of_nat n)
    then 0%float
    else buffer i f.
Proof.
  induction n as [|n IH]; intros fw buffer i f Hfw Hn.
  - cbn [fill_silence snd]. now case_cmp.
  - cbn [fill_silence]. rewrite zero_ports_two.
    rewrite to_int_small by (unfold INT_MAX in *; lia).
    rewrite IH by lia. unfold set_sample, NPORTS.
    case_cmp; reflexivity.
Qed.

(** One span of [len] bytes at index [base] of the storage: the callback
    takes [Z.min (len / bytes_per_frame) nframes] frames from it. *)
Lemma process_span_spec rb base len nframes frames_written buffer :
  0 <= len <= 2 ^ 30 -> 0 <= nframes -> 0 <= frames_written ->
  frames_written + nframes <= INT_MAX ->
  let k := Z.min (len / bytes_per_frame) nframes in
  exists buffer',
    process_span rb (mk_data base len) (nframes, frames_written, buffer)
    = (nframes - k, frames_written + k, buffer') /\
    forall i f,
      buffer' i f
      = if (0 <=? i) && (i <? NPORTS) && (frames_written <=? f)
           && (f <? frames_written + k)
        then sample_conv
               (load_short (buf rb)
                  (base + bytes_per_frame * (f - frames_written) + 2 * i))
        else buffer i f.
Proof.
  intros Hlen Hn Hfw Hsum k.
  assert (Hdiv : 0 <= len / bytes_per_frame <= 2 ^ 30).
  { unfold bytes_per_frame. split.
    - apply Z.div_pos; lia.
    - apply Z.div_le_upper_bound; lia. }
  assert (Hk : 0 <= k <= nframes) by (unfold k; lia).
  unfold INT_MAX in Hsum.
  eexists. split.
  - unfold process_span. cbn [Ringbuffer.len data_buf].
    rewrite (to_nframes_small (len / bytes_per_frame)) by lia.
    assert (Hreq : (if len / bytes_per_frame >? nframes
                    then to_int nframes else to_int (len / bytes_per_frame)) = k).
    { unfold k. case_cmp; rewrite to_int_small; unfold INT_MAX; lia. }
    rewrite Hreq.
    rewrite (to_nframes_small (nframes - k)) by lia.
    rewrite (to_int_small (frames_written + k)) by (unfold INT_MAX; lia).
    reflexivity.
  - intros i f. cbv beta.
    assert (Hreq : (if len / bytes_per_frame >? nframes
                    then to_int nframes else to_int (len / bytes_per_frame)) = k).
    { unfold k. case_cmp; rewrite to_int_small; unfold INT_MAX; lia. }
    rewrite !to_nframes_small by lia.
    rewrite deinterleave_and_convert_spec by lia.
    reflexivity.
Qed.

(** ** The queue as the consumer reads it *)

Lemma nth_map_seq {A : Type} (f : nat -> A) (d : A) (len n : nat) :
  (n < len)%nat -> nth n (map f (seq 0 len)) d = f n.
Proof.
  intros H. rewrite (nth_indep _ d (f 0%nat)) by (rewrite length_map, length_seq; lia).
  rewrite map_nth, seq_nth by lia. reflexivity.
Qed.

Lemma contents_nth rb j :
  0 <= j < jack_ringbuffer_read_space rb ->
  nth (Z.to_nat j) (contents rb) x00 = unread_byte rb j.
Proof.
  intros Hj. unfold contents. rewrite nth_map_seq by lia.
  f_equal. lia.
Qed.

Lemma contents_length rb :
  length (contents rb) = Z.to_nat (jack_ringbuffer_read_space rb).
Proof. unfold contents. rewrite length_map, length_seq. reflexivity. Qed.

(** A sample read from the storage at the place of the queue's sample [j],
    its two bytes not separated by the end of the storage. *)
Lemma load_short_queued rb a j :
  0 <= j -> 2 * j + 1 < jack_ringbuffer_read_space rb ->
  (read_ptr rb + 2 * j) mod size rb = a ->
  (read_ptr rb + (2 * j + 1)) mod size rb = a + 1 ->
  load_short (buf rb) a = queued_sample (contents rb) j.
Proof.
  intros Hj Hlt Ha Ha1. unfold load_short, queued_sample.
  rewrite !contents_nth by lia. unfold unread_byte.
  rewrite Ha, Ha1. reflexivity.
Qed.

(** ** The callback with the flush flag set *)

Section ProcessFlush.

Variable st : jack_state.
Variable nframes : Z.
Variable buffer : port_buffers.
Hypothesis Hwf : wf (jackbuf st).
Hypothesis Hflush : flush_please st <> 0.
Hypothesis Hn : 0 <= nframes <= INT_MAX.

Lemma process_flush_unfold :
  process nframes st buffer
  = (0,
     set_flush_please
       (set_jackbuf st
          (jack_ringbuffer_read_advance (jackbuf st)
             (jack_ringbuffer_read_space (jackbuf st)))) 0,
     snd (fill_silence (Z.to_nat nframes) 0 buffer)).
Proof.
  unfold process. destruct (Z.eqb_spec (flush_please st) 0); [contradiction|].
  reflexivity.
Qed.

Lemma process_flush_read_ptr :
  read_ptr (jackbuf (process_state nframes st buffer)) = write_ptr (jackbuf st).
Proof.
  pose proof (size_bounds _ Hwf). pose proof (ptr_bounds _ Hwf).
  unfold process_state. rewrite process_flush_unfold. cbn.
  rewrite (mask_mod _ Hwf), (read_space_mod _ Hwf).
  rewrite Zplus_mod_idemp_r.
  replace (read_ptr (jackbuf st) + (write_ptr (jackbuf st) - read_ptr (jackbuf st)))
    with (write_ptr (jackbuf st)) by lia.
  apply Z.mod_small. lia.
Qed.

Lemma process_flush_empty :
  jack_ringbuffer_read_space (jackbuf (process_state nframes st buffer)) = 0.
Proof.
  pose proof (read_space_bounds _ Hwf).
  unfold process_state. rewrite process_flush_unfold. cbn [fst snd jackbuf set_flush_please set_jackbuf].
  rewrite (read_advance_space _ Hwf) by lia. lia.
Qed.

Lemma process_flush_output i f :
  process_output nframes st buffer i f
  = if (0 <=? i) && (i <? NPORTS) && (0 <=? f) && (f <? nframes)
    then 0%float else buffer i f.
Proof.
  unfold process_output. rewrite process_flush_unfold. cbn [snd].
  rewrite fill_silence_spec by lia.
  replace (0 + Z.of_nat (Z.to_nat nframes)) with nframes by lia.
  reflexivity.
Qed.

End ProcessFlush.

(** ** The callback with the flush flag clear and the read cursor on a
    frame boundary *)

Section ProcessPlay.

Variable st : jack_state.
Variable nframes : Z.
Variable buffer : port_buffers.
Hypothesis Hwf : wf (jackbuf st).
Hypothesis Hflush : flush_please st = 0.
Hypothesis Halign : read_ptr (jackbuf st) mod bytes_per_frame = 0.
Hypothesis Hn : 0 <= nframes <= INT_MAX.

Let rb := jackbuf st.
Let k := Z.min (jack_ringbuffer_read_space rb / bytes_per_frame) nframes.

Lemma process_play_frames :
  0 <= k <= nframes /\ bytes_per_frame * k <= jack_ringbuffer_read_space rb.
Proof.
  pose proof (read_space_bounds _ Hwf) as Hrs. fold rb in Hrs.
  unfold k, bytes_per_frame. Z.div_mod_to_equations. lia.
Qed.

Lemma process_play_spec :
  process_return nframes st buffer = 0 /\
  process_state nframes st buffer
  = set_jackbuf st (jack_ringbuffer_read_advance rb (bytes_per_frame * k)) /\
  forall i f,
    process_output nframes st buffer i f
    = if (0 <=? i) && (i <? NPORTS) && (0 <=? f) && (f <? nframes)
      then if f <? k
           then sample_conv (frame_sample (contents rb) f i)
           else 0%float
      else buffer i f.
Proof.
  pose proof (size_bounds _ Hwf) as Hs. pose proof (ptr_bounds _ Hwf) as Hp.
  pose proof (read_space_bounds _ Hwf) as Hrs.
  pose proof (size_frames _ Hwf) as Hs4.
  pose proof process_play_frames as Hk.
  fold rb in Hs, Hp, Hrs, Hs4, Halign.
  unfold process_return, process_state, process_output, process.
  rewrite Hflush. cbn [Z.eqb negb].
  rewrite (get_read_vector_spans _ Hwf). cbv zeta. fold rb.
  set (r := read_ptr rb) in *. set (n := jack_ringbuffer_read_space rb) in *.
  assert (HINT : INT_MAX = 2147483647) by reflexivity.
  destruct (Z.gtb_spec (r + n) (size rb)) as [Hwrap|Hwrap].
  - (* two spans *)
    destruct (process_span_spec rb r (size rb - r) nframes 0 buffer)
      as (b1 & E1 & Hb1); try lia.
    rewrite E1.
    set (k0 := Z.min ((size rb - r) / bytes_per_frame) nframes) in *.
    assert (Hk0 : 0 <= k0 <= nframes)
      by (unfold k0, bytes_per_frame; Z.div_mod_to_equations; lia).
    destruct (process_span_spec rb 0 (r + n - size rb) (nframes - k0) (0 + k0) b1)
      as (b2 & E2 & Hb2); try lia.
    rewrite E2.
    set (k1 := Z.min ((r + n - size rb) / bytes_per_frame) (nframes - k0)) in *.
    assert (Hsum : 0 + k0 + k1 = k).
    { unfold k, k0, k1, bytes_per_frame in *. Z.div_mod_to_equations. lia. }
    rewrite Hsum. cbn [fst snd].
    rewrite to_int_small, to_size_t_small
      by (unfold bytes_per_frame in *; lia).
    rewrite (Z.mul_comm k). repeat split; try reflexivity.
    intros i f. rewrite fill_silence_spec by lia.
    rewrite Hb2, Hb1.
    replace (k + Z.of_nat (Z.to_nat (nframes - k0 - k1))) with nframes by lia.
    unfold frame_sample, NPORTS, bytes_per_frame in *.
    case_cmp; try reflexivity; f_equal;
      apply load_short_queued; fold rb n r; unfold k, k0, k1 in *;
      try (Z.div_mod_to_equations; lia);
      first [ rewrite Z.mod_small by (Z.div_mod_to_equations; lia)
            | rewrite mod_above by (Z.div_mod_to_equations; lia) ];
      Z.div_mod_to_equations; lia.
  - (* one span *)
    destruct (process_span_spec rb r n nframes 0 buffer)
      as (b1 & E1 & Hb1); try lia.
    rewrite E1. fold k in E1, Hb1 |- *.
    destruct (process_span_spec rb 0 0 (nframes - k) (0 + k) b1)
      as (b2 & E2 & Hb2); try lia.
    rewrite E2.
    replace (Z.min (0 / bytes_per_frame) (nframes - k)) with 0 in *
      by (unfold bytes_per_frame; cbn; lia).
    cbn [fst snd].
    rewrite !Z.add_0_r, !Z.add_0_l, Z.sub_0_r in *.
    rewrite to_int_small, to_size_t_small
      by (unfold bytes_per_frame in *; lia).
    rewrite (Z.mul_comm k). repeat split; try reflexivity.
    intros i f. rewrite fill_silence_spec by lia.
    rewrite Hb2, Hb1.
    replace (k + Z.of_nat (Z.to_nat (nframes - k))) with nframes by lia.
    unfold frame_sample, NPORTS, bytes_per_frame in *.
    case_cmp; try reflexivity; f_equal;
      apply load_short_queued; fold rb n r; unfold k in *;
      try (Z.div_mod_to_equations; lia);
      rewrite Z.mod_small by (Z.div_mod_to_equations; lia);
      Z.div_mod_to_equations; lia.
Qed.

End ProcessPlay.

(** ** The producer *)

Lemma bytes_to_transfer_small samples :
  0 <= samples -> samples * bytes_per_frame <= INT_MAX ->
  bytes_to_transfer samples = bytes_per_frame * samples.
Proof.
  intros H0 H1. unfold bytes_to_transfer, INT_MAX, bytes_per_frame in *.
  rewrite to_int_small, to_size_t_small by (unfold INT_MAX; lia). lia.
Qed.

Lemma play_unfold st buf samples clock :
  play st buf samples clock
  = (0,
     set_time_of_latest_transfer
       (set_jackbuf st
          (snd (jack_ringbuffer_write (jackbuf st) buf (bytes_to_transfer samples))))
       (to_int64 clock)).
Proof.
  unfold play.
  destruct (jack_ringbuffer_write (jackbuf st) buf (bytes_to_transfer samples)).
  reflexivity.
Qed.

Lemma bytes_to_transfer_nonneg samples : 0 <= bytes_to_transfer samples.
Proof.
  unfold bytes_to_transfer, to_size_t, wrap_unsigned.
  apply Z.mod_pos_bound. lia.
Qed.

Lemma play_wf st buf samples clock :
  wf (jackbuf st) -> wf (jackbuf (snd (play st buf samples clock))).
Proof.
  intros Hwf. rewrite play_unfold. cbn.
  apply write_wf; [assumption | apply bytes_to_transfer_nonneg].
Qed.

Lemma play_flush_please st buf samples clock :
  flush_please (snd (play st buf samples clock)) = flush_please st.
Proof. rewrite play_unfold. reflexivity. Qed.

(** ** The delay estimate without the wrap-around *)

Lemma jack_delay_exact st clock :
  wf (jackbuf st) ->
  0 <= jack_latency st < 2 ^ 32 ->
  INT64_MIN <= clock <= INT64_MAX ->
  INT64_MIN <= (clock - time_of_latest_transfer st) * 44100 <= INT64_MAX ->
  snd (jack_delay st clock)
  = jack_latency st
    + jack_ringbuffer_read_space (jackbuf st) / bytes_per_frame
    - (clock - time_of_latest_transfer st) * 44100 / 2 ^ 32.
Proof.
  intros Hwf Hlat Hclock Hprod.
  pose proof (size_bounds _ Hwf) as Hs.
  pose proof (read_space_bounds _ Hwf) as Hrs.
  unfold INT64_MIN, INT64_MAX in *.
  unfold jack_delay. cbn [snd].
  rewrite (to_int64_small clock) by (unfold INT64_MIN, INT64_MAX; lia).
  rewrite (to_int64_small (clock - _)) by (unfold INT64_MIN, INT64_MAX; lia).
  rewrite (to_int64_small (_ * 44100)) by (unfold INT64_MIN, INT64_MAX; lia).
  rewrite Z.shiftr_div_pow2 by lia.
  set (occ := jack_ringbuffer_read_space (jackbuf st) / bytes_per_frame).
  set (frames := (clock - time_of_latest_transfer st) * 44100 / 2 ^ 32).
  assert (Hocc : 0 <= occ <= 2 ^ 30).
  { unfold occ, bytes_per_frame. Z.div_mod_to_equations. lia. }
  assert (Hfr : - 2 ^ 31 <= frames <= 2 ^ 31).
  { unfold frames. split.
    - apply Z.div_le_lower_bound; lia.
    - apply Z.div_le_upper_bound; lia. }
  rewrite (to_size_t_small occ) by lia.
  rewrite to_size_t_sub, to_long_to_size_t.
  apply to_long_small. unfold INT64_MIN, INT64_MAX. lia.
Qed.

(** ** The frame grid *)

(** The driver starts on the frame grid and stays on it as long as every
    [play] fits: a write of whole frames, a callback that plays whole
    frames and a flush that moves the read cursor to the write cursor all
    keep both cursors on frame boundaries.  Only a [play] that overruns
    leaves the grid, the ring buffer cutting it at the free space, which is
    one byte short of a whole number of frames. *)

Lemma jack_init_on_frame_grid handle : on_frame_grid (jackbuf (jack_init handle)).
Proof. split; reflexivity. Qed.

Lemma play_keeps_frame_grid st buf samples clock :
  wf (jackbuf st) -> on_frame_grid (jackbuf st) ->
  0 <= samples ->
  bytes_per_frame * samples <= jack_ringbuffer_write_space (jackbuf st) ->
  on_frame_grid (jackbuf (snd (play st buf samples clock))).
Proof.
  intros Hwf [Hr Hw] Hs Hfit.
  pose proof (size_bounds _ Hwf) as Hsz.
  pose proof (read_space_bounds _ Hwf) as Hrs.
  pose proof (write_space_eq _ Hwf) as Hws.
  assert (Hcnt : bytes_to_transfer samples = bytes_per_frame * samples).
  { apply bytes_to_transfer_small; [assumption|].
    unfold bytes_per_frame, INT_MAX in *. lia. }
  assert (Hc0 : 0 <= bytes_per_frame * samples)
    by (unfold bytes_per_frame; lia).
  rewrite play_unfold, Hcnt. cbn [snd jackbuf set_jackbuf
                                  set_time_of_latest_transfer].
  destruct (write_spec _ Hwf buf _ Hc0) as (_ & _ & _ & Hr' & Hw' & _).
  rewrite Z.min_l in Hw' by lia.
  split.
  - rewrite Hr'. exact Hr.
  - rewrite Hw'. apply cursor_stays_on_grid; [assumption | assumption |].
    rewrite Z.mul_comm. apply Z_mod_mult.
Qed.

Lemma process_keeps_frame_grid st nframes buffer :
  wf (jackbuf st) -> on_frame_grid (jackbuf st) ->
  0 <= nframes <= INT_MAX ->
  on_frame_grid (jackbuf (process_state nframes st buffer)).
Proof.
  intros Hwf [Hr Hw] Hn.
  destruct (Z.eq_dec (flush_please st) 0) as [Hflush|Hflush].
  - destruct (process_play_spec st nframes buffer Hwf Hflush Hr Hn)
      as (_ & Hst & _).
    rewrite Hst. unfold jack_ringbuffer_read_advance.
    cbn [jackbuf set_jackbuf read_ptr write_ptr]. split; [|exact Hw].
    rewrite (mask_mod _ Hwf).
    apply cursor_stays_on_grid; [assumption | assumption |].
    rewrite Z.mul_comm. apply Z_mod_mult.
  - split.
    + rewrite process_flush_read_ptr by assumption. exact Hw.
    + unfold process_state. rewrite process_flush_unfold by assumption.
      exact Hw.
Qed.

(** The overrun of the concrete run leaves the grid: the write cursor
    ends at the last byte of the storage. *)
Lemma overrun_leaves_frame_grid :
  on_frame_grid (jackbuf st_nearly_full)
  /\ jack_ringbuffer_write_space (jackbuf st_nearly_full) mod bytes_per_frame = 3
  /\ write_ptr (jackbuf st_overrun) mod bytes_per_frame = 3
  /\ read_ptr (jackbuf st_flushed) mod bytes_per_frame = 3.
Proof. vm_compute. repeat split; reflexivity. Qed.

(** * The claims *)

(** ** The sample converter *)

Lemma sample_conv_checked : check_range 16 SHRT_MIN sample_conv_ok = true.
Proof. vm_compute. reflexivity. Qed.

Lemma sample_conv_ok_all s :
  SHRT_MIN <= s <= SHRT_MAX -> sample_conv_ok s = true.
Proof.
  intros Hs. apply (check_range_sound _ 16 SHRT_MIN sample_conv_checked).
  unfold SHRT_MIN, SHRT_MAX in *. cbn. lia.
Qed.

(** C7.  For every signed 16-bit sample [s], [sample_conv s] is a float in
    [-1.0, 1.0].  Below zero it is [(-1.0 * s) / SHRT_MIN], whose value is
    exactly [s / 32768]; from zero on it is [(1.0 * s) / SHRT_MAX], the
    float nearest to [s / 32767] (within [2 ^ -25] of it).  [SHRT_MIN]
    goes to [-1.0], [0] to [0.0], [SHRT_MAX] to [1.0], and the two halves
    are not mirror images: [-SHRT_MAX] does not go to [-1.0]. *)
Theorem sample_conv_range_and_halves (s : Z) :
  SHRT_MIN <= s <= SHRT_MAX ->
  (PrimFloat.leb (-1) (sample_conv s) = true
   /\ PrimFloat.leb (sample_conv s) 1 = true)
  /\ (s < 0 ->
      sample_conv s
      = float_of_double (-1 * double_of_Z s / double_of_Z SHRT_MIN)%float
      /\ (F2Q (sample_conv s) == s # 32768)%Q)
  /\ (0 <= s ->
      sample_conv s
      = float_of_double (1 * double_of_Z s / double_of_Z SHRT_MAX)%float
      /\ (Qabs (F2Q (sample_conv s) - (s # 32767)) <= 1 # 33554432)%Q)
  /\ sample_conv SHRT_MIN = (-1)%float
  /\ sample_conv 0 = 0%float
  /\ sample_conv SHRT_MAX = 1%float
  /\ PrimFloat.eqb (sample_conv (- SHRT_MAX)) (- sample_conv SHRT_MAX) = false.
Proof.
  intros Hs. pose proof (sample_conv_ok_all s Hs) as Hok.
  unfold sample_conv_ok in Hok. cbv zeta in Hok.
  apply andb_prop in Hok. destruct Hok as [Hrange Hval].
  apply andb_prop in Hrange. destruct Hrange as [Hlo Hhi].
  split; [split; assumption|].
  split; [|split; [|repeat split; vm_compute; reflexivity]].
  - intros Hneg. destruct (Z.ltb_spec s 0) as [_|]; [|lia].
    split.
    + unfold sample_conv. destruct (Z.ltb_spec s 0); [reflexivity | lia].
    + apply Qeq_bool_iff. exact Hval.
  - intros Hpos. destruct (Z.ltb_spec s 0) as [|_]; [lia|].
    split.
    + unfold sample_conv. destruct (Z.ltb_spec s 0); [lia | reflexivity].
    + apply Qle_bool_iff. exact Hval.
Qed.

(** The theorem at the sample [-12345]. *)
Lemma sample_conv_range_and_halves_witness :
  SHRT_MIN <= -12345 <= SHRT_MAX
  /\ PrimFloat.leb (-1) (sample_conv (-12345)) = true
  /\ PrimFloat.leb (sample_conv (-12345)) 1 = true.
Proof.
  assert (H : SHRT_MIN <= -12345 <= SHRT_MAX) by (unfold SHRT_MIN, SHRT_MAX; lia).
  split; [exact H|].
  exact (proj1 (sample_conv_range_and_halves (-12345) H)).
Defined.

(** ** The flush *)

Lemma st_fresh_wf : wf (jackbuf st_fresh).
Proof. exists 20. cbn. repeat split; lia. Qed.

Lemma two_frames_wf : wf (jackbuf st_two_frames).
Proof. apply play_wf, st_fresh_wf. Qed.

(** C3.  When the flush flag is set at entry, the callback moves the read
    cursor on by the whole unread occupancy, which leaves the buffer empty,
    clears the flag, and fills all [nframes] frames of every port with
    silence: no sample of the output comes from the queue. *)
Theorem process_flush_discards_queue (st : jack_state) (nframes : Z)
  (buffer : port_buffers) :
  wf (jackbuf st) -> flush_please st <> 0 -> 0 <= nframes <= INT_MAX ->
  let st' := process_state nframes st buffer in
  let out := process_output nframes st buffer in
  process_return nframes st buffer = 0
  /\ jackbuf st'
     = jack_ringbuffer_read_advance (jackbuf st)
         (jack_ringbuffer_read_space (jackbuf st))
  /\ read_ptr (jackbuf st')
     = (read_ptr (jackbuf st) + jack_ringbuffer_read_space (jackbuf st))
       mod size (jackbuf st)
  /\ read_ptr (jackbuf st') = write_ptr (jackbuf st')
  /\ jack_ringbuffer_read_space (jackbuf st') = 0
  /\ contents (jackbuf st') = []
  /\ flush_please st' = 0
  /\ (forall i f, 0 <= i < NPORTS -> 0 <= f < nframes -> out i f = 0%float)
  /\ (forall i f, ~ (0 <= i < NPORTS /\ 0 <= f < nframes) ->
      out i f = buffer i f).
Proof.
  intros Hwf Hflush Hn st' out.
  pose proof (process_flush_read_ptr st nframes buffer Hwf Hflush) as Hptr.
  pose proof (process_flush_empty st nframes buffer Hwf Hflush) as Hempty.
  fold st' in Hptr, Hempty.
  assert (Hst : st' = set_flush_please
                        (set_jackbuf st
                           (jack_ringbuffer_read_advance (jackbuf st)
                              (jack_ringbuffer_read_space (jackbuf st)))) 0).
  { unfold st', process_state. rewrite process_flush_unfold by assumption.
    reflexivity. }
  repeat split.
  - unfold process_return. rewrite process_flush_unfold by assumption.
    reflexivity.
  - rewrite Hst. reflexivity.
  - rewrite Hst. cbn. apply (mask_mod _ Hwf).
  - rewrite Hptr, Hst. reflexivity.
  - exact Hempty.
  - unfold contents. rewrite Hempty. reflexivity.
  - rewrite Hst. reflexivity.
  - intros i f Hi Hf. unfold out.
    rewrite process_flush_output by assumption. now case_cmp.
  - intros i f Hout. unfold out.
    rewrite process_flush_output by assumption. now case_cmp.
Qed.

(** The theorem at two queued frames, the flag set, three frames asked. *)
Lemma process_flush_discards_queue_witness :
  wf (jackbuf (jack_flush st_two_frames))
  /\ flush_please (jack_flush st_two_frames) <> 0
  /\ 0 <= 3 <= INT_MAX
  /\ contents (jackbuf (process_state 3 (jack_flush st_two_frames) stale_ports))
     = []
  /\ flush_please (process_state 3 (jack_flush st_two_frames) stale_ports) = 0.
Proof.
  assert (H1 : wf (jackbuf (jack_flush st_two_frames))) by exact two_frames_wf.
  assert (H2 : flush_please (jack_flush st_two_frames) <> 0)
    by (cbn; discriminate).
  assert (H3 : 0 <= 3 <= INT_MAX) by (unfold INT_MAX; lia).
  pose proof (process_flush_discards_queue (jack_flush st_two_frames) 3
                stale_ports H1 H2 H3) as H.
  cbv zeta in H.
  destruct H as (_ & _ & _ & _ & _ & Hempty & Hflag & _).
  exact (conj H1 (conj H2 (conj H3 (conj Hempty Hflag)))).
Defined.

(** ** The delay estimate *)

Lemma to_long_delay_sum latency occ frames :
  to_long
    (to_size_t (to_size_t (latency + to_size_t occ) - to_size_t frames))
  = to_long (latency + occ - frames).
Proof.
  rewrite to_size_t_sub, to_long_to_size_t.
  unfold to_long, wrap_signed, to_size_t, wrap_unsigned.
  f_equal.
  replace (latency + occ mod 2 ^ 64 - frames + 2 ^ (64 - 1))
    with (occ mod 2 ^ 64 + (latency - frames + 2 ^ (64 - 1))) by lia.
  rewrite Zplus_mod_idemp_l. f_equal. lia.
Qed.

(** C5.  In every state the delay [jack_delay] stores is
    [jack_latency + read_space / bytes_per_frame - frames_since_transfer]
    as a [long], where [frames_since_transfer] is the elapsed 32.32
    fixed-point time since the last transfer, multiplied by 44100 in
    [int64_t] and shifted right arithmetically by 32 bits (the integer
    part, rounded down).  Where this arithmetic stays in range, as C
    requires of it, no wrap-around is left in the formula. *)
Theorem jack_delay_formula (st : jack_state) (clock : Z) :
  let elapsed := to_int64 (to_int64 clock - time_of_latest_transfer st) in
  let frames_since_transfer := Z.shiftr (to_int64 (elapsed * 44100)) 32 in
  jack_delay st clock
  = (0,
     to_long
       (jack_latency st
        + jack_ringbuffer_read_space (jackbuf st) / bytes_per_frame
        - frames_since_transfer))
  /\ frames_since_transfer = to_int64 (elapsed * 44100) / 2 ^ 32
  /\ (wf (jackbuf st) ->
      0 <= jack_latency st < 2 ^ 32 ->
      INT64_MIN <= clock <= INT64_MAX ->
      INT64_MIN <= (clock - time_of_latest_transfer st) * 44100 <= INT64_MAX ->
      jack_delay st clock
      = (0,
         jack_latency st
         + jack_ringbuffer_read_space (jackbuf st) / bytes_per_frame
         - (clock - time_of_latest_transfer st) * 44100 / 2 ^ 32)).
Proof.
  intros elapsed frames.
  split; [|split].
  - unfold jack_delay. fold elapsed. fold frames.
    rewrite to_long_delay_sum. reflexivity.
  - unfold frames. apply Z.shiftr_div_pow2. lia.
  - intros Hwf Hlat Hclock Hprod.
    rewrite (surjective_pairing (jack_delay st clock)).
    rewrite jack_delay_exact by assumption. reflexivity.
Qed.

(** The theorem one second after two frames were queued: the estimate is
    [2 - 44100] frames. *)
Lemma jack_delay_formula_witness :
  wf (jackbuf st_two_frames)
  /\ 0 <= jack_latency st_two_frames < 2 ^ 32
  /\ INT64_MIN <= 100 + 2 ^ 32 <= INT64_MAX
  /\ jack_delay st_two_frames (100 + 2 ^ 32) = (0, -44098).
Proof.
  assert (H1 : wf (jackbuf st_two_frames)) by exact two_frames_wf.
  assert (H2 : 0 <= jack_latency st_two_frames < 2 ^ 32) by (cbn; lia).
  assert (H3 : INT64_MIN <= 100 + 2 ^ 32 <= INT64_MAX)
    by (unfold INT64_MIN, INT64_MAX; lia).
  assert (H4 : INT64_MIN
               <= (100 + 2 ^ 32 - time_of_latest_transfer st_two_frames) * 44100
               <= INT64_MAX)
    by (unfold INT64_MIN, INT64_MAX; cbn; lia).
  exact (conj H1 (conj H2 (conj H3
           (proj2 (proj2 (jack_delay_formula st_two_frames (100 + 2 ^ 32)))
              H1 H2 H3 H4)))).
Defined.

(** C6.  When the latency estimate and the occupancy are not negative and
    the elapsed fixed-point time since the last transfer is strictly less
    than the duration of the queued audio (its frames at 44100 per second,
    that is [elapsed * 44100 < frames * 2 ^ 32]), the delay [jack_delay]
    stores is not negative. *)
Theorem jack_delay_nonnegative (st : jack_state) (clock : Z) :
  wf (jackbuf st) ->
  0 <= jack_latency st < 2 ^ 32 ->
  0 <= jack_ringbuffer_read_space (jackbuf st) / bytes_per_frame ->
  INT64_MIN <= clock <= INT64_MAX ->
  INT64_MIN <= (clock - time_of_latest_transfer st) * 44100 ->
  (clock - time_of_latest_transfer st) * 44100
  < jack_ringbuffer_read_space (jackbuf st) / bytes_per_frame * 2 ^ 32 ->
  0 <= snd (jack_delay st clock).
Proof.
  intros Hwf Hlat Hocc Hclock Hlow Hshort.
  pose proof (size_bounds _ Hwf) as Hs.
  pose proof (read_space_bounds _ Hwf) as Hrs.
  set (occ := jack_ringbuffer_read_space (jackbuf st) / bytes_per_frame) in *.
  assert (Hocc' : occ <= 2 ^ 30)
    by (unfold occ, bytes_per_frame; Z.div_mod_to_equations; lia).
  rewrite jack_delay_exact; try assumption.
  - fold occ.
    assert ((clock - time_of_latest_transfer st) * 44100 / 2 ^ 32 < occ)
      by (apply Z.div_lt_upper_bound; lia).
    lia.
  - unfold INT64_MAX, INT64_MIN in *. lia.
Qed.

(** The theorem a tenth of a millisecond after two frames were queued. *)
Lemma jack_delay_nonnegative_witness :
  wf (jackbuf st_two_frames)
  /\ (100 + 2 ^ 16 - time_of_latest_transfer st_two_frames) * 44100
     < jack_ringbuffer_read_space (jackbuf st_two_frames) / bytes_per_frame
       * 2 ^ 32
  /\ 0 <= snd (jack_delay st_two_frames (100 + 2 ^ 16)).
Proof.
  assert (H1 : wf (jackbuf st_two_frames)) by exact two_frames_wf.
  assert (H2 : 0 <= jack_latency st_two_frames < 2 ^ 32) by (cbn; lia).
  assert (H3 : 0 <= jack_ringbuffer_read_space (jackbuf st_two_frames)
                    / bytes_per_frame) by (vm_compute; discriminate).
  assert (H4 : INT64_MIN <= 100 + 2 ^ 16 <= INT64_MAX)
    by (unfold INT64_MIN, INT64_MAX; lia).
  assert (H5 : INT64_MIN
               <= (100 + 2 ^ 16 - time_of_latest_transfer st_two_frames) * 44100)
    by (unfold INT64_MIN; cbn; lia).
  assert (H6 : (100 + 2 ^ 16 - time_of_latest_transfer st_two_frames) * 44100
               < jack_ringbuffer_read_space (jackbuf st_two_frames)
                 / bytes_per_frame * 2 ^ 32)
    by (vm_compute; reflexivity).
  exact (conj H1 (conj H6
           (jack_delay_nonnegative st_two_frames (100 + 2 ^ 16)
              H1 H2 H3 H4 H5 H6))).
Defined.

(** ** The producer's write *)

Lemma play_many_wf buf samples tick :
  forall n st clock,
  wf (jackbuf st) -> wf (jackbuf (play_many n st buf samples clock tick)).
Proof.
  induction n as [|n IH]; intros st clock Hwf; cbn [play_many].
  - exact Hwf.
  - apply IH, play_wf, Hwf.
Qed.

(** C10.  Every call of [play] sets [time_of_latest_transfer] to the
    absolute time read during the call.  A call that finds the ring buffer
    full transfers no byte and leaves the buffer and its occupancy as they
    were; it sets the time all the same. *)
Theorem play_records_transfer_time (st : jack_state) (buf : list byte)
  (samples clock : Z) :
  let st' := snd (play st buf samples clock) in
  time_of_latest_transfer st' = to_int64 clock
  /\ (INT64_MIN <= clock <= INT64_MAX -> time_of_latest_transfer st' = clock)
  /\ (jack_ringbuffer_write_space (jackbuf st) = 0 ->
      bytes_transferred st buf samples = 0
      /\ jackbuf st' = jackbuf st
      /\ jack_ringbuffer_read_space (jackbuf st')
         = jack_ringbuffer_read_space (jackbuf st)
      /\ time_of_latest_transfer st' = to_int64 clock).
Proof.
  intros st'. unfold st'. rewrite play_unfold. cbn [snd].
  split; [reflexivity|]. split.
  - intros Hc. cbn. apply to_int64_small. exact Hc.
  - intros Hfull. unfold bytes_transferred, jack_ringbuffer_write.
    rewrite Hfull. cbn. repeat split; reflexivity.
Qed.

(** A full buffer: after the overrun no byte is free, and one more packet
    changes nothing but the time. *)
Lemma play_on_full_buffer :
  jack_ringbuffer_write_space (jackbuf st_overrun) = 0
  /\ time_of_latest_transfer st_overrun = 25506727584
  /\ time_of_latest_transfer (snd (play st_overrun silent_packet 352 25541010820))
     = 25541010820
  /\ jack_ringbuffer_read_space
       (jackbuf (snd (play st_overrun silent_packet 352 25541010820)))
     = jack_ringbuffer_read_space (jackbuf st_overrun).
Proof. vm_compute. repeat split; reflexivity. Qed.

(** C2, as the spec states it, fails: [play] returns [0] after it wrote
    two frames. *)
Lemma play_return_is_not_frame_count :
  fst (play st_fresh two_frames 2 100) = 0
  /\ bytes_transferred st_fresh two_frames 2 / bytes_per_frame = 2.
Proof. vm_compute. split; reflexivity. Qed.

(** C2, amended.  [play] always returns [0].  It writes to the ring
    buffer as many of the [bytes_per_frame * samples] bytes as fit: with
    [r] bytes free and [s > r] bytes to write, exactly the first [r] bytes
    are appended to the queue and the rest is dropped.  The count written
    is what [jack_ringbuffer_write] returned, which [play] only logs. *)
Theorem play_writes_what_fits (st : jack_state) (buf : list byte)
  (samples clock : Z) :
  wf (jackbuf st) ->
  0 <= samples -> samples * bytes_per_frame <= INT_MAX ->
  bytes_per_frame * samples <= Z.of_nat (length buf) ->
  let s := bytes_per_frame * samples in
  let r := jack_ringbuffer_write_space (jackbuf st) in
  let n := bytes_transferred st buf samples in
  let st' := snd (play st buf samples clock) in
  fst (play st buf samples clock) = 0
  /\ n = Z.min s r
  /\ (r < s -> n = r)
  /\ jack_ringbuffer_read_space (jackbuf st')
     = jack_ringbuffer_read_space (jackbuf st) + n
  /\ contents (jackbuf st') = contents (jackbuf st) ++ firstn (Z.to_nat n) buf.
Proof.
  intros Hwf Hs0 Hs1 Hlen s r n st'.
  assert (Hcnt : bytes_to_transfer samples = s)
    by (apply bytes_to_transfer_small; assumption).
  assert (Hs : 0 <= s) by (unfold s, bytes_per_frame; lia).
  destruct (write_spec _ Hwf buf s Hs) as (Hn & _).
  assert (Hn' : n = Z.min s r).
  { unfold n, bytes_transferred. rewrite Hcnt. exact Hn. }
  assert (Hst : jackbuf st' = snd (jack_ringbuffer_write (jackbuf st) buf s)).
  { unfold st'. rewrite play_unfold, Hcnt. reflexivity. }
  split; [rewrite play_unfold; reflexivity|].
  split; [exact Hn'|].
  split; [lia|].
  rewrite Hst, Hn'. split.
  - apply write_read_space; assumption.
  - apply write_contents; try assumption. lia.
Qed.

(** The theorem at the overrun: 1023 bytes are free, a packet of 1408
    bytes arrives, 1023 bytes are written. *)
Lemma play_writes_what_fits_witness :
  wf (jackbuf st_nearly_full)
  /\ jack_ringbuffer_write_space (jackbuf st_nearly_full) = 1023
  /\ bytes_per_frame * 352 = 1408
  /\ bytes_transferred st_nearly_full silent_packet 352 = Z.min 1408 1023.
Proof.
  assert (H1 : wf (jackbuf st_nearly_full))
    by (apply play_many_wf; exists 20; cbn; repeat split; lia).
  assert (H2 : 0 <= 352) by lia.
  assert (H3 : 352 * bytes_per_frame <= INT_MAX)
    by (unfold bytes_per_frame, INT_MAX; lia).
  assert (H4 : bytes_per_frame * 352 <= Z.of_nat (length silent_packet))
    by (vm_compute; discriminate).
  assert (H5 : jack_ringbuffer_write_space (jackbuf st_nearly_full) = 1023)
    by (vm_compute; reflexivity).
  pose proof (play_writes_what_fits st_nearly_full silent_packet 352
                25506727584 H1 H2 H3 H4) as H.
  cbv zeta in H. destruct H as (_ & Hn & _).
  rewrite H5 in Hn.
  exact (conj H1 (conj H5 (conj eq_refl Hn))).
Defined.

(** ** A flush request followed by a write *)

(** C4, as the spec states it, fails: after [jack_flush] and a [play] of
    two hundred loud frames the next callback outputs silence where the
    first of these frames was expected, and the queue is empty after it:
    the frames submitted after the request went with the residue. *)
Lemma flush_then_play_loses_new_frames :
  Z.of_nat (length (contents (jackbuf st_flush_then_play)))
  = 8 + bytes_per_frame * 200
  /\ process_output 200 st_flush_then_play stale_ports 0 0 = 0%float
  /\ PrimFloat.eqb (sample_conv (frame_sample loud_frames 0 0)) 0 = false
  /\ contents (jackbuf (process_state 200 st_flush_then_play stale_ports)) = [].
Proof. vm_compute. repeat split; reflexivity. Qed.

(** C4, amended.  The flush acts on whatever is queued when the callback
    observes the flag.  After [jack_flush] and then [play], the next
    callback discards the whole queue, the frames submitted after the
    request included, clears the flag and outputs [nframes] frames of
    silence. *)
Theorem flush_discards_later_frames (st : jack_state) (buf : list byte)
  (samples clock nframes : Z) (buffer : port_buffers) :
  wf (jackbuf st) -> 0 <= nframes <= INT_MAX ->
  let st1 := snd (play (jack_flush st) buf samples clock) in
  let st2 := process_state nframes st1 buffer in
  flush_please st1 = 1
  /\ contents (jackbuf st2) = []
  /\ flush_please st2 = 0
  /\ forall i f, 0 <= i < NPORTS -> 0 <= f < nframes ->
       process_output nframes st1 buffer i f = 0%float.
Proof.
  intros Hwf Hn st1 st2.
  assert (Hwf1 : wf (jackbuf st1)) by (apply play_wf; exact Hwf).
  assert (Hf1 : flush_please st1 = 1)
    by (unfold st1; rewrite play_flush_please; reflexivity).
  assert (Hne : flush_please st1 <> 0) by lia.
  split; [exact Hf1|]. split; [|split].
  - unfold contents, st2. rewrite process_flush_empty by assumption.
    reflexivity.
  - unfold st2, process_state. rewrite process_flush_unfold by assumption.
    reflexivity.
  - intros i f Hi Hf. rewrite process_flush_output by assumption.
    now case_cmp.
Qed.

(** The theorem at two frames of residue and two hundred later frames. *)
Lemma flush_discards_later_frames_witness :
  wf (jackbuf st_two_frames)
  /\ 0 <= 200 <= INT_MAX
  /\ contents (jackbuf (process_state 200 st_flush_then_play stale_ports)) = []
  /\ flush_please (process_state 200 st_flush_then_play stale_ports) = 0.
Proof.
  assert (H1 : wf (jackbuf st_two_frames)) by exact two_frames_wf.
  assert (H2 : 0 <= 200 <= INT_MAX) by (unfold INT_MAX; lia).
  pose proof (flush_discards_later_frames st_two_frames loud_frames 200 300
                200 stale_ports H1 H2) as H.
  cbv zeta in H. destruct H as (_ & Hempty & Hflag & _).
  exact (conj H1 (conj H2 (conj Hempty Hflag))).
Defined.

(** ** The delay estimate and the session *)



(** ** A frame split by the end of the storage *)

(** C1 at a state the driver reaches: an overrun ([st_overrun]) leaves
    the write cursor off the frame grid, the flush ([st_flushed]) takes
    the read cursor there, and the next two frames are written around the
    end of the storage ([st_straddle]).  The flag is clear, the queue
    holds exactly the two frames, two frames are required; the callback
    delivers one frame, converted from the bytes one place further on
    ([0x0302] for [0x0201]), and one frame of silence. *)
Theorem process_splits_frame_at_wrap :
  flush_please st_straddle = 0
  /\ contents (jackbuf st_straddle) = two_frames
  /\ Z.min (jack_ringbuffer_read_space (jackbuf st_straddle) / bytes_per_frame) 2
     = 2
  /\ frame_sample two_frames 0 0 = 513
  /\ process_output 2 st_straddle stale_ports 0 0 = sample_conv 770
  /\ PrimFloat.eqb (sample_conv 770) (sample_conv 513) = false
  /\ process_output 2 st_straddle stale_ports 0 1 = 0%float
  /\ process_output 2 st_straddle stale_ports 1 1 = 0%float.
Proof. vm_compute. repeat split; reflexivity. Qed.

(** C9 at the same state.  The write of the two frames straddles the end
    of the storage, and the ring buffer holds its bytes in order.  The
    callback converts the bytes [02 03] and [04 05] as the first frame:
    the byte [01] before the end is skipped, and the byte [05] stays
    queued after it was converted, so the next callback converts it
    again. *)
Theorem wrap_read_skips_and_repeats_bytes :
  write_ptr (jackbuf st_flushed) + bytes_to_transfer 2
  > size (jackbuf st_flushed)
  /\ jack_ringbuffer_get_read_vector (jackbuf st_straddle)
     = (mk_data 1048575 1, mk_data 0 7)
  /\ contents (jackbuf st_straddle) = two_frames
  /\ process_output 2 st_straddle stale_ports 0 0 = sample_conv 770
  /\ process_output 2 st_straddle stale_ports 1 0 = sample_conv 1284
  /\ contents (jackbuf (process_state 2 st_straddle stale_ports))
     = [x05; x06; x07; x08]
  /\ process_output 1 (process_state 2 st_straddle stale_ports) stale_ports 0 0
     = sample_conv 1541.
Proof. vm_compute. repeat split; reflexivity. Qed.

(** ** The callback on a frame-aligned queue *)

Lemma frame_sample_app (q1 q2 : list byte) (m f i : Z) :
  Z.of_nat (length q1) = bytes_per_frame * m ->
  0 <= f -> 0 <= i < NPORTS ->
  frame_sample (q1 ++ q2) (m + f) i = frame_sample q2 f i.
Proof.
  intros Hlen Hf Hi. unfold frame_sample, queued_sample, NPORTS, bytes_per_frame in *.
  rewrite !app_nth2 by lia.
  do 4 f_equal; [|f_equal; f_equal]; f_equal; lia.
Qed.

(** With the flag clear and the read cursor on a frame boundary, the
    callback writes exactly [nframes] frames to every port: the first [k]
    frames, [k] the smaller of the whole frames queued and [nframes], are
    the queued samples converted by [sample_conv], oldest first; the
    remaining [nframes - k] frames are [0.0]; the frames played leave the
    queue, and the read cursor stays on a frame boundary. *)
Theorem process_plays_queue_then_silence (st : jack_state) (nframes : Z)
  (buffer : port_buffers) :
  wf (jackbuf st) -> flush_please st = 0 ->
  read_ptr (jackbuf st) mod bytes_per_frame = 0 ->
  0 <= nframes <= INT_MAX ->
  let q := contents (jackbuf st) in
  let k :=
    Z.min (jack_ringbuffer_read_space (jackbuf st) / bytes_per_frame) nframes in
  let st' := process_state nframes st buffer in
  let out := process_output nframes st buffer in
  process_return nframes st buffer = 0
  /\ (forall i f, 0 <= i < NPORTS -> 0 <= f < k ->
      out i f = sample_conv (frame_sample q f i))
  /\ (forall i f, 0 <= i < NPORTS -> k <= f < nframes -> out i f = 0%float)
  /\ (forall i f, ~ (0 <= i < NPORTS /\ 0 <= f < nframes) ->
      out i f = buffer i f)
  /\ contents (jackbuf st') = skipn (Z.to_nat (bytes_per_frame * k)) q
  /\ flush_please st' = 0
  /\ read_ptr (jackbuf st') mod bytes_per_frame = 0.
Proof.
  intros Hwf Hflush Halign Hn q k st' out.
  destruct (process_play_spec st nframes buffer Hwf Hflush Halign Hn)
    as (Hret & Hst & Hout).
  assert (Hkk := process_play_frames st nframes).
  destruct Hkk as (Hk & Hk4); try assumption.
  fold k in Hst, Hout, Hk, Hk4. fold st' in Hst.
  pose proof (size_bounds _ Hwf) as Hs. pose proof (ptr_bounds _ Hwf) as Hp.
  pose proof (read_space_bounds _ Hwf) as Hrs.
  pose proof (size_frames _ Hwf) as Hs4.
  split; [exact Hret|].
  split; [|split; [|split; [|split; [|split]]]].
  - intros i f Hi Hf. unfold out. rewrite Hout. now case_cmp.
  - intros i f Hi Hf. unfold out. rewrite Hout. now case_cmp.
  - intros i f Hno. unfold out. rewrite Hout. now case_cmp.
  - rewrite Hst. cbn [jackbuf set_jackbuf].
    apply read_advance_contents; [assumption|].
    unfold bytes_per_frame in *. lia.
  - rewrite Hst. exact Hflush.
  - rewrite Hst. unfold jack_ringbuffer_read_advance.
    cbn [jackbuf set_jackbuf read_ptr]. rewrite (mask_mod _ Hwf).
    apply cursor_stays_on_grid; [assumption | assumption |].
    rewrite Z.mul_comm. apply Z_mod_mult.
Qed.

(** The theorem at an underrun: two frames queued, three required. *)
Lemma process_plays_queue_then_silence_witness :
  wf (jackbuf st_two_frames)
  /\ flush_please st_two_frames = 0
  /\ read_ptr (jackbuf st_two_frames) mod bytes_per_frame = 0
  /\ 0 <= 3 <= INT_MAX
  /\ process_output 3 st_two_frames stale_ports 1 1
     = sample_conv (frame_sample (contents (jackbuf st_two_frames)) 1 1)
  /\ process_output 3 st_two_frames stale_ports 1 2 = 0%float.
Proof.
  assert (H1 : wf (jackbuf st_two_frames)) by exact two_frames_wf.
  assert (H2 : flush_please st_two_frames = 0) by reflexivity.
  assert (H3 : read_ptr (jackbuf st_two_frames) mod bytes_per_frame = 0)
    by reflexivity.
  assert (H4 : 0 <= 3 <= INT_MAX) by (unfold INT_MAX; lia).
  pose proof (process_plays_queue_then_silence st_two_frames 3 stale_ports
                H1 H2 H3 H4) as H.
  cbv zeta in H. destruct H as (_ & Haudio & Hsilence & _).
  assert (Hi : 0 <= 1 < NPORTS) by (unfold NPORTS; lia).
  assert (Hk : Z.min (jack_ringbuffer_read_space (jackbuf st_two_frames)
                      / bytes_per_frame) 3 = 2) by reflexivity.
  rewrite Hk in Haudio, Hsilence.
  exact (conj H1 (conj H2 (conj H3 (conj H4
           (conj (Haudio 1 1 Hi ltac:(lia)) (Hsilence 1 2 Hi ltac:(lia))))))).
Defined.

(** ** A write around the end of the storage, read back *)

(** With the read cursor on a frame boundary and whole frames queued, the
    frames a [play] adds, wherever its bytes fall in the storage and in
    particular when they straddle its end, come out of the next callback
    after the frames queued before them, converted sample by sample in the
    order they were written. *)
Theorem aligned_write_then_read_back (st : jack_state) (buf : list byte)
  (samples clock nframes : Z) (buffer : port_buffers) :
  wf (jackbuf st) -> flush_please st = 0 ->
  read_ptr (jackbuf st) mod bytes_per_frame = 0 ->
  jack_ringbuffer_read_space (jackbuf st) mod bytes_per_frame = 0 ->
  0 <= samples ->
  Z.of_nat (length buf) = bytes_per_frame * samples ->
  bytes_per_frame * samples <= jack_ringbuffer_write_space (jackbuf st) ->
  0 <= nframes <= INT_MAX ->
  jack_ringbuffer_read_space (jackbuf st) / bytes_per_frame + samples <= nframes ->
  let m := jack_ringbuffer_read_space (jackbuf st) / bytes_per_frame in
  let st1 := snd (play st buf samples clock) in
  contents (jackbuf st1) = contents (jackbuf st) ++ buf
  /\ forall i f, 0 <= i < NPORTS -> 0 <= f < samples ->
       process_output nframes st1 buffer i (m + f)
       = sample_conv (frame_sample buf f i).
Proof.
  intros Hwf Hflush Halign Hwhole Hs0 Hlen Hfit Hn Hroom m st1.
  pose proof (size_bounds _ Hwf) as Hs.
  pose proof (read_space_bounds _ Hwf) as Hrs.
  pose proof (write_space_eq _ Hwf) as Hws.
  assert (Hcnt : bytes_to_transfer samples = bytes_per_frame * samples).
  { apply bytes_to_transfer_small; [assumption|].
    unfold bytes_per_frame, INT_MAX in *. lia. }
  assert (Hc0 : 0 <= bytes_per_frame * samples)
    by (unfold bytes_per_frame; lia).
  assert (Hmin : Z.min (bytes_per_frame * samples)
                   (jack_ringbuffer_write_space (jackbuf st))
                 = bytes_per_frame * samples) by lia.
  assert (Hbuf1 : jackbuf st1
                  = snd (jack_ringbuffer_write (jackbuf st) buf
                           (bytes_per_frame * samples))).
  { unfold st1. rewrite play_unfold, Hcnt. reflexivity. }
  assert (Hq : contents (jackbuf st1) = contents (jackbuf st) ++ buf).
  { rewrite Hbuf1, write_contents by (try assumption; lia).
    rewrite Hmin, <- Hlen, Nat2Z.id, firstn_all. reflexivity. }
  assert (Hrs1 : jack_ringbuffer_read_space (jackbuf st1)
                 = jack_ringbuffer_read_space (jackbuf st)
                   + bytes_per_frame * samples).
  { rewrite Hbuf1, write_read_space by assumption. rewrite Hmin. reflexivity. }
  assert (Hwf1 : wf (jackbuf st1)) by (apply play_wf; exact Hwf).
  assert (Hf1 : flush_please st1 = 0)
    by (unfold st1; rewrite play_flush_please; exact Hflush).
  assert (Hal1 : read_ptr (jackbuf st1) mod bytes_per_frame = 0).
  { rewrite Hbuf1.
    destruct (write_spec _ Hwf buf _ Hc0) as (_ & _ & _ & Hr & _).
    rewrite Hr. exact Halign. }
  split; [exact Hq|].
  intros i f Hi Hf.
  destruct (process_play_spec st1 nframes buffer Hwf1 Hf1 Hal1 Hn)
    as (_ & _ & Hout).
  rewrite Hout, Hrs1, Hq.
  assert (Hm : jack_ringbuffer_read_space (jackbuf st) = bytes_per_frame * m).
  { unfold m. apply Z.div_exact; [unfold bytes_per_frame; lia | exact Hwhole]. }
  assert (Hm0 : 0 <= m)
    by (unfold m, bytes_per_frame; apply Z.div_pos; lia).
  fold m in Hroom.
  assert (Hk : Z.min ((jack_ringbuffer_read_space (jackbuf st)
                       + bytes_per_frame * samples) / bytes_per_frame) nframes
               = m + samples).
  { rewrite Hm, <- Z.mul_add_distr_l, Z.mul_comm, Z.div_mul
      by (unfold bytes_per_frame; lia).
    lia. }
  rewrite Hk.
  destruct (Z.leb_spec 0 i); [|lia].
  destruct (Z.ltb_spec i NPORTS); [|lia].
  destruct (Z.leb_spec 0 (m + f)); [|lia].
  destruct (Z.ltb_spec (m + f) nframes); [|lia].
  destruct (Z.ltb_spec (m + f) (m + samples)); [|lia].
  cbn [andb]. f_equal.
  apply frame_sample_app; try lia.
  rewrite contents_length. lia.
Qed.

(** The theorem at a write that straddles the end of the storage: two
    frames written with both cursors one frame before the end. *)
Lemma aligned_write_then_read_back_witness :
  wf (jackbuf st_at_end)
  /\ write_ptr (jackbuf st_at_end) + bytes_per_frame * 2
     > size (jackbuf st_at_end)
  /\ process_output 2 (snd (play st_at_end two_frames 2 7)) stale_ports 1 (0 + 1)
     = sample_conv (frame_sample two_frames 1 1).
Proof.
  assert (H1 : wf (jackbuf st_at_end)) by (exists 20; cbn; repeat split; lia).
  assert (H2 : flush_please st_at_end = 0) by reflexivity.
  assert (H3 : read_ptr (jackbuf st_at_end) mod bytes_per_frame = 0)
    by reflexivity.
  assert (H4 : jack_ringbuffer_read_space (jackbuf st_at_end)
               mod bytes_per_frame = 0) by reflexivity.
  assert (H5 : 0 <= 2) by lia.
  assert (H6 : Z.of_nat (length two_frames) = bytes_per_frame * 2)
    by reflexivity.
  assert (H7 : bytes_per_frame * 2
               <= jack_ringbuffer_write_space (jackbuf st_at_end))
    by (vm_compute; discriminate).
  assert (H8 : 0 <= 2 <= INT_MAX) by (unfold INT_MAX; lia).
  assert (H9 : jack_ringbuffer_read_space (jackbuf st_at_end) / bytes_per_frame
               + 2 <= 2) by (vm_compute; discriminate).
  assert (Hstr : write_ptr (jackbuf st_at_end) + bytes_per_frame * 2
                 > size (jackbuf st_at_end)) by reflexivity.
  pose proof (aligned_write_then_read_back st_at_end two_frames 2 7 2
                stale_ports H1 H2 H3 H4 H5 H6 H7 H8 H9) as H.
  cbv zeta in H. destruct H as (_ & Hout).
  assert (Hi : 0 <= 1 < NPORTS) by (unfold NPORTS; lia).
  exact (conj H1 (conj Hstr (Hout 1 1 Hi ltac:(lia)))).
Defined.

(** * Further properties of the code *)

(** ** The callback in any state of the ring buffer *)

Lemma frames_fit_span len n :
  0 <= len -> 0 <= n ->
  0 <= Z.min (len / bytes_per_frame) n <= n
  /\ bytes_per_frame * Z.min (len / bytes_per_frame) n <= len.
Proof.
  intros Hlen Hn. unfold bytes_per_frame.
  pose proof (Z.div_pos len 4 Hlen ltac:(lia)).
  pose proof (Z.mul_div_le len 4 ltac:(lia)).
  lia.
Qed.

Section ProcessClear.

Variable st : jack_state.
Variable nframes : Z.
Variable buffer : port_buffers.
Hypothesis Hwf : wf (jackbuf st).
Hypothesis Hflush : flush_please st = 0.
Hypothesis Hn : 0 <= nframes <= INT_MAX.

Lemma frames_taken_bounds :
  0 <= frames_taken (jackbuf st) nframes <= nframes
  /\ bytes_per_frame * frames_taken (jackbuf st) nframes
     <= jack_ringbuffer_read_space (jackbuf st).
Proof.
  pose proof (size_bounds _ Hwf) as Hs. pose proof (ptr_bounds _ Hwf) as Hp.
  pose proof (read_space_bounds _ Hwf) as Hrs.
  unfold frames_taken. rewrite (get_read_vector_spans _ Hwf). cbv zeta.
  destruct (Z.gtb_spec (read_ptr (jackbuf st)
                        + jack_ringbuffer_read_space (jackbuf st))
              (size (jackbuf st))) as [Hwrap|Hwrap]; cbn [len].
  - pose proof (frames_fit_span (size (jackbuf st) - read_ptr (jackbuf st))
                  nframes ltac:(lia) ltac:(lia)) as (H0 & H0').
    set (k0 := Z.min _ nframes) in *.
    pose proof (frames_fit_span (read_ptr (jackbuf st)
                                 + jack_ringbuffer_read_space (jackbuf st)
                                 - size (jackbuf st)) (nframes - k0)
                  ltac:(lia) ltac:(lia)) as (H1 & H1').
    unfold bytes_per_frame in *. lia.
  - pose proof (frames_fit_span (jack_ringbuffer_read_space (jackbuf st))
                  nframes ltac:(lia) ltac:(lia)) as (H0 & H0').
    set (k0 := Z.min _ nframes) in *.
    pose proof (frames_fit_span 0 (nframes - k0) ltac:(lia) ltac:(lia))
      as (H1 & H1').
    unfold bytes_per_frame in *. lia.
Qed.

Lemma process_clear_spec :
  process_return nframes st buffer = 0
  /\ process_state nframes st buffer
     = set_jackbuf st
         (jack_ringbuffer_read_advance (jackbuf st)
            (bytes_per_frame * frames_taken (jackbuf st) nframes))
  /\ forall i f,
       frames_taken (jackbuf st) nframes <= f
       \/ ~ (0 <= i < NPORTS /\ 0 <= f < nframes) ->
       process_output nframes st buffer i f
       = if (0 <=? i) && (i <? NPORTS) && (0 <=? f) && (f <? nframes)
         then 0%float else buffer i f.
Proof.
  pose proof (size_bounds _ Hwf) as Hs. pose proof (ptr_bounds _ Hwf) as Hp.
  pose proof (read_space_bounds _ Hwf) as Hrs.
  pose proof frames_taken_bounds as Hk.
  assert (HINT : INT_MAX = 2147483647) by reflexivity.
  unfold process_return, process_state, process_output, process.
  rewrite Hflush. cbn [Z.eqb negb].
  unfold frames_taken in *.
  destruct (jack_ringbuffer_get_read_vector (jackbuf st)) as [[b0 l0] [b1 l1]] eqn:Ev.
  assert (Hl : 0 <= l0 <= 2 ^ 30 /\ 0 <= l1 <= 2 ^ 30).
  { rewrite (get_read_vector_spans _ Hwf) in Ev. cbv zeta in Ev.
    destruct (Z.gtb_spec (read_ptr (jackbuf st)
                          + jack_ringbuffer_read_space (jackbuf st))
                (size (jackbuf st)));
      injection Ev as <- <- <- <-; lia. }
  cbn [len] in Hk.
  pose proof (frames_fit_span l0 nframes ltac:(lia) ltac:(lia)) as (H0 & _).
  destruct (process_span_spec (jackbuf st) b0 l0 nframes 0 buffer
              ltac:(lia) ltac:(lia) ltac:(lia) ltac:(lia))
    as (buf1 & E1 & Hb1).
  rewrite E1. cbn [len].
  set (k0 := Z.min (l0 / bytes_per_frame) nframes) in *.
  pose proof (frames_fit_span l1 (nframes - k0) ltac:(lia) ltac:(lia))
    as (H1 & _).
  destruct (process_span_spec (jackbuf st) b1 l1 (nframes - k0) (0 + k0) buf1
              ltac:(lia) ltac:(lia) ltac:(lia) ltac:(lia))
    as (buf2 & E2 & Hb2).
  rewrite E2.
  set (k1 := Z.min (l1 / bytes_per_frame) (nframes - k0)) in *.
  rewrite Z.add_0_l in *. cbn [fst snd].
  rewrite to_int_small, to_size_t_small by (unfold bytes_per_frame in *; lia).
  rewrite (Z.mul_comm (k0 + k1)).
  repeat split; try reflexivity.
  intros i f Hf. rewrite fill_silence_spec by lia.
  rewrite Hb2, Hb1.
  replace (k0 + k1 + Z.of_nat (Z.to_nat (nframes - k0 - k1))) with nframes
    by lia.
  unfold NPORTS in *. now case_cmp.
Qed.

End ProcessClear.

(** The callback keeps the ring buffer well formed, whatever it is asked. *)
Lemma process_wf st nframes buffer :
  wf (jackbuf st) -> wf (jackbuf (process_state nframes st buffer)).
Proof.
  intros Hwf. unfold process_state, process.
  destruct (negb (flush_please st =? 0)).
  - cbn. apply read_advance_wf, Hwf.
  - destruct (jack_ringbuffer_get_read_vector (jackbuf st)) as [v0 v1].
    destruct (process_span (jackbuf st) v1
                (process_span (jackbuf st) v0 (nframes, 0, buffer)))
      as [[n' fw] b'].
    cbn. apply read_advance_wf, Hwf.
Qed.

Lemma jack_flush_jackbuf st : jackbuf (jack_flush st) = jackbuf st.
Proof. reflexivity. Qed.

Lemma st_straddle_wf : wf (jackbuf st_straddle).
Proof.
  unfold st_straddle. apply play_wf. unfold st_flushed. apply process_wf.
  rewrite jack_flush_jackbuf. unfold st_overrun.
  apply play_many_wf, st_fresh_wf.
Qed.

(** With the flag clear the callback takes whole frames from the two
    spans and never more than is queued, whatever the position of the
    cursors: the read cursor moves on by [bytes_per_frame] times the frames
    taken, the bytes taken leave the queue at its head, the write cursor,
    the storage and the other variables stay as they are, every frame
    after the frames taken is silence, and no sample outside the
    [nframes] frames of the two ports is written. *)
Theorem process_takes_only_queued_frames (st : jack_state) (nframes : Z)
  (buffer : port_buffers) :
  wf (jackbuf st) -> flush_please st = 0 -> 0 <= nframes <= INT_MAX ->
  let k := frames_taken (jackbuf st) nframes in
  let st' := process_state nframes st buffer in
  let out := process_output nframes st buffer in
  (0 <= k <= nframes
   /\ bytes_per_frame * k <= jack_ringbuffer_read_space (jackbuf st))
  /\ wf (jackbuf st')
  /\ jack_ringbuffer_read_space (jackbuf st')
     = jack_ringbuffer_read_space (jackbuf st) - bytes_per_frame * k
  /\ contents (jackbuf st')
     = skipn (Z.to_nat (bytes_per_frame * k)) (contents (jackbuf st))
  /\ (write_ptr (jackbuf st') = write_ptr (jackbuf st)
      /\ buf (jackbuf st') = buf (jackbuf st)
      /\ size (jackbuf st') = size (jackbuf st))
  /\ (flush_please st' = 0
      /\ jack_latency st' = jack_latency st
      /\ time_of_latest_transfer st' = time_of_latest_transfer st
      /\ client st' = client st)
  /\ (forall i f, 0 <= i < NPORTS -> k <= f < nframes -> out i f = 0%float)
  /\ (forall i f, ~ (0 <= i < NPORTS /\ 0 <= f < nframes) ->
      out i f = buffer i f).
Proof.
  intros Hwf Hflush Hn k st' out.
  pose proof (frames_taken_bounds st nframes Hwf Hn) as Hk. fold k in Hk.
  destruct (process_clear_spec st nframes buffer Hwf Hflush Hn)
    as (_ & Hst & Hout).
  fold k in Hst, Hout. fold st' in Hst.
  assert (Hadv : 0 <= bytes_per_frame * k
                 <= jack_ringbuffer_read_space (jackbuf st))
    by (unfold bytes_per_frame in *; lia).
  split; [exact Hk|].
  rewrite Hst. cbn [jackbuf set_jackbuf flush_please jack_latency
                    time_of_latest_transfer client].
  split; [apply read_advance_wf; exact Hwf|].
  split; [apply read_advance_space; assumption|].
  split; [apply read_advance_contents; assumption|].
  split; [repeat split|].
  split; [repeat split; assumption|].
  split.
  - intros i f Hi Hf. unfold out. rewrite Hout by (left; lia). now case_cmp.
  - intros i f Hno. unfold out. rewrite Hout by (right; exact Hno).
    now case_cmp.
Qed.

(** The theorem at the state of the split frame: two frames are queued
    and required, one frame is taken, four bytes stay queued. *)
Lemma process_takes_only_queued_frames_witness :
  wf (jackbuf st_straddle)
  /\ flush_please st_straddle = 0
  /\ 0 <= 2 <= INT_MAX
  /\ frames_taken (jackbuf st_straddle) 2 = 1
  /\ jack_ringbuffer_read_space (jackbuf (process_state 2 st_straddle stale_ports))
     = jack_ringbuffer_read_space (jackbuf st_straddle)
       - bytes_per_frame * frames_taken (jackbuf st_straddle) 2.
Proof.
  assert (H1 : wf (jackbuf st_straddle)) by exact st_straddle_wf.
  assert (H2 : flush_please st_straddle = 0) by (vm_compute; reflexivity).
  assert (H3 : 0 <= 2 <= INT_MAX) by (unfold INT_MAX; lia).
  assert (H4 : frames_taken (jackbuf st_straddle) 2 = 1)
    by (vm_compute; reflexivity).
  pose proof (process_takes_only_queued_frames st_straddle 2 stale_ports
                H1 H2 H3) as H.
  cbv zeta in H. destruct H as (_ & _ & Hspace & _).
  exact (conj H1 (conj H2 (conj H3 (conj H4 Hspace)))).
Defined.

(** ** The callback on an empty buffer *)

Lemma read_advance_nothing rb :
  wf rb -> jack_ringbuffer_read_advance rb 0 = rb.
Proof.
  intros Hwf. pose proof (ptr_bounds rb Hwf) as Hp.
  unfold jack_ringbuffer_read_advance.
  rewrite (mask_mod rb Hwf), Z.add_0_r, Z.mod_small by lia.
  destruct rb; reflexivity.
Qed.

Lemma frames_taken_of_empty rb nframes :
  wf rb -> jack_ringbuffer_read_space rb = 0 -> 0 <= nframes ->
  frames_taken rb nframes = 0.
Proof.
  intros Hwf Hempty Hn. pose proof (ptr_bounds rb Hwf) as Hp.
  unfold frames_taken. rewrite (get_read_vector_spans rb Hwf). cbv zeta.
  rewrite Hempty.
  destruct (Z.gtb_spec (read_ptr rb + 0) (size rb)); [lia|].
  cbn [len]. unfold bytes_per_frame. cbn. lia.
Qed.

(** An underrun on an empty buffer is silent: with nothing queued the
    callback, whether the flush flag is set or clear, fills the [nframes]
    frames of both ports with [0.0], writes no other sample, leaves the
    ring buffer exactly as it was and the flag clear. *)
Theorem process_on_empty_buffer (st : jack_state) (nframes : Z)
  (buffer : port_buffers) :
  wf (jackbuf st) -> jack_ringbuffer_read_space (jackbuf st) = 0 ->
  0 <= nframes <= INT_MAX ->
  let st' := process_state nframes st buffer in
  let out := process_output nframes st buffer in
  process_return nframes st buffer = 0
  /\ jackbuf st' = jackbuf st
  /\ flush_please st' = 0
  /\ (forall i f, 0 <= i < NPORTS -> 0 <= f < nframes -> out i f = 0%float)
  /\ (forall i f, ~ (0 <= i < NPORTS /\ 0 <= f < nframes) ->
      out i f = buffer i f).
Proof.
  intros Hwf Hempty Hn st' out.
  destruct (Z.eq_dec (flush_please st) 0) as [Hflush|Hflush].
  - destruct (process_clear_spec st nframes buffer Hwf Hflush Hn)
      as (Hret & Hst & Hout).
    rewrite frames_taken_of_empty in Hst, Hout by (assumption || lia).
    fold st' in Hst.
    rewrite Z.mul_0_r, read_advance_nothing in Hst by assumption.
    split; [exact Hret|]. rewrite Hst. cbn [jackbuf set_jackbuf flush_please].
    repeat split; try assumption.
    + intros i f Hi Hf. unfold out. rewrite Hout by (left; lia).
      now case_cmp.
    + intros i f Hno. unfold out. rewrite Hout by (right; exact Hno).
      now case_cmp.
  - unfold st', out, process_return, process_state, process_output.
    rewrite process_flush_unfold by assumption. cbn [fst snd].
    rewrite Hempty, read_advance_nothing by assumption.
    cbn [jackbuf set_jackbuf set_flush_please flush_please].
    repeat split.
    + intros i f Hi Hf. rewrite fill_silence_spec by lia. now case_cmp.
    + intros i f Hno. rewrite fill_silence_spec by lia. now case_cmp.
Qed.

(** The theorem at the fresh buffer, 512 frames required. *)
Lemma process_on_empty_buffer_witness :
  wf (jackbuf st_fresh)
  /\ jack_ringbuffer_read_space (jackbuf st_fresh) = 0
  /\ 0 <= 512 <= INT_MAX
  /\ jackbuf (process_state 512 st_fresh stale_ports) = jackbuf st_fresh
  /\ process_output 512 st_fresh stale_ports 1 511 = 0%float.
Proof.
  assert (H1 : wf (jackbuf st_fresh)) by exact st_fresh_wf.
  assert (H2 : jack_ringbuffer_read_space (jackbuf st_fresh) = 0)
    by reflexivity.
  assert (H3 : 0 <= 512 <= INT_MAX) by (unfold INT_MAX; lia).
  pose proof (process_on_empty_buffer st_fresh 512 stale_ports H1 H2 H3) as H.
  cbv zeta in H. destruct H as (_ & Hbuf & _ & Hout & _).
  assert (Hi : 0 <= 1 < NPORTS) by (unfold NPORTS; lia).
  exact (conj H1 (conj H2 (conj H3 (conj Hbuf (Hout 1 511 Hi ltac:(lia)))))).
Defined.

(** ** Consecutive callbacks *)

Lemma frame_sample_skipn (q : list byte) (k f i : Z) :
  0 <= k -> 0 <= f -> 0 <= i < NPORTS ->
  frame_sample (skipn (Z.to_nat (bytes_per_frame * k)) q) f i
  = frame_sample q (k + f) i.
Proof.
  intros Hk Hf Hi.
  unfold frame_sample, queued_sample, NPORTS, bytes_per_frame in *.
  rewrite !nth_skipn.
  do 4 f_equal; [|f_equal; f_equal]; f_equal; lia.
Qed.

(** Period boundaries lose nothing and repeat nothing: with the flag
    clear and the read cursor on a frame boundary, a callback for [n1]
    frames followed by a callback for [n2] frames delivers, in its own
    [n2] frames, what one callback for [n1 + n2] frames delivers after
    its first [n1], and leaves the ring buffer in the same state. *)
Theorem consecutive_callbacks_continue (st : jack_state) (n1 n2 : Z)
  (buffer1 buffer2 buffer : port_buffers) :
  wf (jackbuf st) -> flush_please st = 0 ->
  read_ptr (jackbuf st) mod bytes_per_frame = 0 ->
  0 <= n1 -> 0 <= n2 -> n1 + n2 <= INT_MAX ->
  let st1 := process_state n1 st buffer1 in
  jackbuf (process_state n2 st1 buffer2)
  = jackbuf (process_state (n1 + n2) st buffer)
  /\ forall i f, 0 <= i < NPORTS -> 0 <= f < n2 ->
       process_output n2 st1 buffer2 i f
       = process_output (n1 + n2) st buffer i (n1 + f).
Proof.
  intros Hwf Hflush Halign Hn1 Hn2 Hsum st1.
  pose proof (size_bounds _ Hwf) as Hs.
  pose proof (read_space_bounds _ Hwf) as Hrs.
  set (rs := jack_ringbuffer_read_space (jackbuf st)) in *.
  set (m := rs / bytes_per_frame).
  assert (Hm : 0 <= m /\ bytes_per_frame * m <= rs < bytes_per_frame * m + 4).
  { unfold m, bytes_per_frame.
    pose proof (Z.div_pos rs 4 ltac:(lia) ltac:(lia)).
    pose proof (Z.mul_div_le rs 4 ltac:(lia)).
    pose proof (Z.mul_succ_div_gt rs 4 ltac:(lia)). lia. }
  set (k1 := Z.min m n1).
  destruct (process_play_spec st n1 buffer1 Hwf Hflush Halign
              ltac:(lia)) as (_ & Hst1 & _).
  fold rs m k1 st1 in Hst1.
  destruct (process_play_spec st (n1 + n2) buffer Hwf Hflush Halign
              ltac:(lia)) as (_ & Hst12 & Hout12).
  fold rs m in Hst12, Hout12.
  assert (Hadv : 0 <= bytes_per_frame * k1 <= rs)
    by (unfold k1, bytes_per_frame in *; lia).
  assert (Hwf1 : wf (jackbuf st1)).
  { rewrite Hst1. cbn [jackbuf set_jackbuf]. apply read_advance_wf, Hwf. }
  assert (Hf1 : flush_please st1 = 0) by (rewrite Hst1; exact Hflush).
  assert (Hal1 : read_ptr (jackbuf st1) mod bytes_per_frame = 0).
  { rewrite Hst1. unfold jack_ringbuffer_read_advance.
    cbn [jackbuf set_jackbuf read_ptr]. rewrite (mask_mod _ Hwf).
    apply cursor_stays_on_grid; [assumption | assumption |].
    rewrite Z.mul_comm. apply Z_mod_mult. }
  assert (Hrs1 : jack_ringbuffer_read_space (jackbuf st1)
                 = rs - bytes_per_frame * k1).
  { rewrite Hst1. cbn [jackbuf set_jackbuf].
    apply read_advance_space; assumption. }
  assert (Hq1 : contents (jackbuf st1)
                = skipn (Z.to_nat (bytes_per_frame * k1)) (contents (jackbuf st))).
  { rewrite Hst1. cbn [jackbuf set_jackbuf].
    apply read_advance_contents; assumption. }
  destruct (process_play_spec st1 n2 buffer2 Hwf1 Hf1 Hal1
              ltac:(lia)) as (_ & Hst2 & Hout2).
  rewrite Hrs1 in Hst2, Hout2.
  assert (Hdiv : (rs - bytes_per_frame * k1) / bytes_per_frame = m - k1).
  { unfold m.
    replace (rs - bytes_per_frame * k1) with (rs + (- k1) * bytes_per_frame)
      by lia.
    rewrite Z.div_add by (unfold bytes_per_frame; lia). lia. }
  rewrite Hdiv in Hst2, Hout2.
  set (k2 := Z.min (m - k1) n2) in *.
  assert (Hk12 : Z.min m (n1 + n2) = k1 + k2) by (unfold k1, k2; lia).
  rewrite Hk12 in Hst12, Hout12.
  split.
  - rewrite Hst2, Hst12, Hst1. unfold jack_ringbuffer_read_advance.
    cbn [jackbuf set_jackbuf buf write_ptr read_ptr size size_mask].
    f_equal. rewrite !(mask_mod _ Hwf), Zplus_mod_idemp_l.
    f_equal. lia.
  - intros i f Hi Hf. rewrite Hout2, Hout12, Hq1.
    destruct (Z.leb_spec 0 i); [|lia].
    destruct (Z.ltb_spec i NPORTS); [|lia].
    destruct (Z.leb_spec 0 f); [|lia].
    destruct (Z.ltb_spec f n2); [|lia].
    destruct (Z.leb_spec 0 (n1 + f)); [|lia].
    destruct (Z.ltb_spec (n1 + f) (n1 + n2)); [|lia].
    cbn [andb].
    destruct (Z.ltb_spec f k2) as [Hlt|Hge];
      destruct (Z.ltb_spec (n1 + f) (k1 + k2)) as [Hlt'|Hge'];
      try reflexivity.
    + rewrite frame_sample_skipn by (unfold k1; lia).
      replace (k1 + f) with (n1 + f) by (unfold k1, k2 in *; lia).
      reflexivity.
    + unfold k1, k2 in *. lia.
    + unfold k1, k2 in *. lia.
Qed.

(** The theorem at two queued frames, read one frame at a time. *)
Lemma consecutive_callbacks_continue_witness :
  wf (jackbuf st_two_frames)
  /\ flush_please st_two_frames = 0
  /\ read_ptr (jackbuf st_two_frames) mod bytes_per_frame = 0
  /\ process_output 1 (process_state 1 st_two_frames stale_ports) stale_ports 0 0
     = process_output (1 + 1) st_two_frames stale_ports 0 (1 + 0).
Proof.
  assert (H1 : wf (jackbuf st_two_frames)) by exact two_frames_wf.
  assert (H2 : flush_please st_two_frames = 0) by reflexivity.
  assert (H3 : read_ptr (jackbuf st_two_frames) mod bytes_per_frame = 0)
    by reflexivity.
  pose proof (consecutive_callbacks_continue st_two_frames 1 1 stale_ports
                stale_ports stale_ports H1 H2 H3 ltac:(lia) ltac:(lia)
                ltac:(unfold INT_MAX; lia)) as H.
  cbv zeta in H. destruct H as (_ & Hout).
  assert (Hi : 0 <= 0 < NPORTS) by (unfold NPORTS; lia).
  exact (conj H1 (conj H2 (conj H3 (Hout 0 0 Hi ltac:(lia))))).
Defined.

(** ** What the producer leaves alone *)

(** What one [play] within what C defines does to the state. *)
Lemma play_spec st buf samples clock :
  wf (jackbuf st) -> 0 <= samples -> samples * bytes_per_frame <= INT_MAX ->
  let n := Z.min (bytes_per_frame * samples)
                 (jack_ringbuffer_write_space (jackbuf st)) in
  let st' := snd (play st buf samples clock) in
  st' = set_time_of_latest_transfer (set_jackbuf st (jackbuf st'))
          (to_int64 clock)
  /\ bytes_transferred st buf samples = n
  /\ 0 <= n <= size (jackbuf st) - 1 - jack_ringbuffer_read_space (jackbuf st)
  /\ wf (jackbuf st')
  /\ size (jackbuf st') = size (jackbuf st)
  /\ read_ptr (jackbuf st') = read_ptr (jackbuf st)
  /\ write_ptr (jackbuf st') = (write_ptr (jackbuf st) + n) mod size (jackbuf st)
  /\ jack_ringbuffer_read_space (jackbuf st')
     = jack_ringbuffer_read_space (jackbuf st) + n
  /\ (forall i, 0 <= i < jack_ringbuffer_read_space (jackbuf st) ->
      unread_byte (jackbuf st') i = unread_byte (jackbuf st) i)
  /\ (n <= Z.of_nat (length buf) ->
      contents (jackbuf st')
      = contents (jackbuf st) ++ firstn (Z.to_nat n) buf).
Proof.
  intros Hwf Hs0 Hs1 n st'.
  assert (Hcnt : bytes_to_transfer samples = bytes_per_frame * samples)
    by (apply bytes_to_transfer_small; assumption).
  assert (Hc0 : 0 <= bytes_per_frame * samples)
    by (unfold bytes_per_frame; lia).
  assert (Hst : jackbuf st'
                = snd (jack_ringbuffer_write (jackbuf st) buf
                         (bytes_per_frame * samples))).
  { unfold st'. rewrite play_unfold, Hcnt. reflexivity. }
  destruct (write_spec _ Hwf buf _ Hc0) as (Hn & Hsz & _ & Hr & Hw & _).
  pose proof (write_count_bounds _ Hwf _ Hc0) as Hnb.
  split; [unfold st'; rewrite play_unfold; reflexivity|].
  split; [unfold bytes_transferred; rewrite Hcnt; exact Hn|].
  split; [exact Hnb|].
  rewrite Hst.
  split; [apply write_wf; assumption|].
  split; [exact Hsz|]. split; [exact Hr|]. split; [exact Hw|].
  split; [apply write_read_space; assumption|].
  split.
  - intros i Hi. rewrite write_unread_byte by (assumption || (fold n; lia)).
    destruct (Z.ltb_spec i (jack_ringbuffer_read_space (jackbuf st)));
      [reflexivity | lia].
  - intros Hlen. apply write_contents; assumption.
Qed.

(** [play] only appends: it never overwrites a byte that is still queued,
    never moves the read cursor, and leaves the flush flag, the latency
    estimate and the session alone; the occupancy never shrinks and never
    exceeds the storage less one byte; the packet is dropped in part
    exactly when it is larger than the free space. *)
Theorem play_only_appends (st : jack_state) (buf : list byte)
  (samples clock : Z) :
  wf (jackbuf st) -> 0 <= samples -> samples * bytes_per_frame <= INT_MAX ->
  let st' := snd (play st buf samples clock) in
  (forall i, 0 <= i < jack_ringbuffer_read_space (jackbuf st) ->
     unread_byte (jackbuf st') i = unread_byte (jackbuf st) i)
  /\ read_ptr (jackbuf st') = read_ptr (jackbuf st)
  /\ size (jackbuf st') = size (jackbuf st)
  /\ (flush_please st' = flush_please st
      /\ jack_latency st' = jack_latency st
      /\ client st' = client st)
  /\ jack_ringbuffer_read_space (jackbuf st)
     <= jack_ringbuffer_read_space (jackbuf st')
     <= size (jackbuf st) - 1
  /\ (bytes_transferred st buf samples < bytes_per_frame * samples
      <-> jack_ringbuffer_write_space (jackbuf st) < bytes_per_frame * samples)
  /\ (samples = 0 ->
      jack_ringbuffer_read_space (jackbuf st')
      = jack_ringbuffer_read_space (jackbuf st)
      /\ write_ptr (jackbuf st') = write_ptr (jackbuf st)).
Proof.
  intros Hwf Hs0 Hs1 st'.
  pose proof (size_bounds _ Hwf) as Hs. pose proof (ptr_bounds _ Hwf) as Hp.
  pose proof (read_space_bounds _ Hwf) as Hrs.
  pose proof (write_space_eq _ Hwf) as Hws.
  destruct (play_spec st buf samples clock Hwf Hs0 Hs1)
    as (Hst & Hn & Hnb & _ & Hsz & Hr & Hw & Hsp & Hkeep & _).
  fold st' in Hst, Hsz, Hr, Hw, Hsp, Hkeep.
  split; [exact Hkeep|]. split; [exact Hr|]. split; [exact Hsz|].
  split; [rewrite Hst; repeat split|].
  split; [lia|].
  split; [rewrite Hn; lia|].
  intros ->. rewrite Hsp, Hw.
  replace (Z.min (bytes_per_frame * 0) _) with 0
    by (unfold bytes_per_frame; lia).
  rewrite !Z.add_0_r, Z.mod_small by lia. split; reflexivity.
Qed.

(** The theorem at the overrun: the 1408 bytes of the packet meet 1023
    free bytes. *)
Lemma play_only_appends_witness :
  wf (jackbuf st_nearly_full)
  /\ 0 <= 352
  /\ 352 * bytes_per_frame <= INT_MAX
  /\ read_ptr (jackbuf (snd (play st_nearly_full silent_packet 352 0)))
     = read_ptr (jackbuf st_nearly_full)
  /\ jack_ringbuffer_read_space
       (jackbuf (snd (play st_nearly_full silent_packet 352 0)))
     <= size (jackbuf st_nearly_full) - 1.
Proof.
  assert (H1 : wf (jackbuf st_nearly_full))
    by (apply play_many_wf, st_fresh_wf).
  assert (H2 : 0 <= 352) by lia.
  assert (H3 : 352 * bytes_per_frame <= INT_MAX)
    by (unfold bytes_per_frame, INT_MAX; lia).
  pose proof (play_only_appends st_nearly_full silent_packet 352 0 H1 H2 H3)
    as H.
  cbv zeta in H. destruct H as (_ & Hr & _ & _ & Hocc & _).
  exact (conj H1 (conj H2 (conj H3 (conj Hr (proj2 Hocc))))).
Defined.

(** ** A packet delivered in two parts *)

(** Cutting a packet in two changes nothing but the number of calls: a
    [play] of the [sa] frames of [a] followed by a [play] of [sb] frames
    of [b] leaves the queue, the cursors and the time of the latest
    transfer as one [play] of the [sa + sb] frames of [a ++ b] does, and
    as many bytes are transferred in all, also when the free space runs
    out in the first part or in the second. *)
Theorem play_in_two_parts (st : jack_state) (a b : list byte)
  (sa sb clock_a clock : Z) :
  wf (jackbuf st) -> 0 <= sa -> 0 <= sb ->
  (sa + sb) * bytes_per_frame <= INT_MAX ->
  Z.of_nat (length a) = bytes_per_frame * sa ->
  bytes_per_frame * sb <= Z.of_nat (length b) ->
  let st1 := snd (play st a sa clock_a) in
  let st2 := snd (play st1 b sb clock) in
  let st12 := snd (play st (a ++ b) (sa + sb) clock) in
  contents (jackbuf st2) = contents (jackbuf st12)
  /\ jack_ringbuffer_read_space (jackbuf st2)
     = jack_ringbuffer_read_space (jackbuf st12)
  /\ read_ptr (jackbuf st2) = read_ptr (jackbuf st12)
  /\ write_ptr (jackbuf st2) = write_ptr (jackbuf st12)
  /\ time_of_latest_transfer st2 = time_of_latest_transfer st12
  /\ bytes_transferred st a sa + bytes_transferred st1 b sb
     = bytes_transferred st (a ++ b) (sa + sb).
Proof.
  intros Hwf Hsa Hsb Hsum Hla Hlb st1 st2 st12.
  pose proof (size_bounds _ Hwf) as Hs.
  pose proof (read_space_bounds _ Hwf) as Hrs.
  pose proof (write_space_eq _ Hwf) as Hws.
  assert (Hbpf : bytes_per_frame = 4) by reflexivity.
  destruct (play_spec st a sa clock_a Hwf Hsa ltac:(lia))
    as (_ & Hn1 & Hnb1 & Hwf1 & Hsz1 & Hr1 & Hw1 & Hsp1 & _ & Hc1).
  fold st1 in Hwf1, Hsz1, Hr1, Hw1, Hsp1, Hc1.
  set (n1 := Z.min (bytes_per_frame * sa)
                   (jack_ringbuffer_write_space (jackbuf st))) in *.
  pose proof (write_space_eq _ Hwf1) as Hws1.
  destruct (play_spec st1 b sb clock Hwf1 Hsb ltac:(lia))
    as (Hst2 & Hn2 & Hnb2 & _ & _ & Hr2 & Hw2 & Hsp2 & _ & Hc2).
  fold st2 in Hst2, Hr2, Hw2, Hsp2, Hc2.
  set (n2 := Z.min (bytes_per_frame * sb)
                   (jack_ringbuffer_write_space (jackbuf st1))) in *.
  destruct (play_spec st (a ++ b) (sa + sb) clock Hwf ltac:(lia) Hsum)
    as (Hst12 & Hn12 & Hnb12 & _ & _ & Hr12 & Hw12 & Hsp12 & _ & Hc12).
  fold st12 in Hst12, Hr12, Hw12, Hsp12, Hc12.
  set (n12 := Z.min (bytes_per_frame * (sa + sb))
                    (jack_ringbuffer_write_space (jackbuf st))) in *.
  assert (Hn : n12 = n1 + n2) by (unfold n12, n1, n2; lia).
  rewrite length_app, Nat2Z.inj_add in Hc12.
  rewrite Hc2, Hc1, Hc12 by (unfold n12, n1, n2 in *; lia).
  rewrite Hsp2, Hsp1, Hsp12, Hr2, Hr1, Hr12, Hw2, Hw1, Hw12, Hsz1.
  rewrite Hn1, Hn2, Hn12, Hn.
  split; [|split; [lia|split; [reflexivity|split; [|split; [|reflexivity]]]]].
  - rewrite <- app_assoc. f_equal. rewrite firstn_app.
    destruct (Z.le_gt_cases (bytes_per_frame * sa)
                (jack_ringbuffer_write_space (jackbuf st))) as [Hfit|Hover].
    + replace n1 with (Z.of_nat (length a)) by (unfold n1; lia).
      rewrite Nat2Z.id, firstn_all.
      rewrite (firstn_all2 a) by (unfold n1, n2 in *; lia).
      do 2 f_equal. lia.
    + replace n2 with 0 by (unfold n1, n2 in *; lia).
      rewrite Z.add_0_r.
      replace (Z.to_nat n1 - length a)%nat with 0%nat
        by (unfold n1 in *; lia).
      reflexivity.
  - rewrite Zplus_mod_idemp_l. f_equal. lia.
  - rewrite Hst2, Hst12. reflexivity.
Qed.

(** The theorem at the fresh buffer, two frames delivered one by one. *)
Lemma play_in_two_parts_witness :
  wf (jackbuf st_fresh)
  /\ Z.of_nat (length [x01; x02; x03; x04]) = bytes_per_frame * 1
  /\ contents
       (jackbuf
          (snd (play (snd (play st_fresh [x01; x02; x03; x04] 1 50))
                  [x05; x06; x07; x08] 1 100)))
     = contents
         (jackbuf
            (snd (play st_fresh ([x01; x02; x03; x04] ++ [x05; x06; x07; x08])
                    (1 + 1) 100))).
Proof.
  assert (H1 : wf (jackbuf st_fresh)) by exact st_fresh_wf.
  assert (H2 : (1 + 1) * bytes_per_frame <= INT_MAX)
    by (unfold bytes_per_frame, INT_MAX; lia).
  assert (H3 : Z.of_nat (length [x01; x02; x03; x04]) = bytes_per_frame * 1)
    by reflexivity.
  assert (H4 : bytes_per_frame * 1 <= Z.of_nat (length [x05; x06; x07; x08]))
    by (unfold bytes_per_frame; cbn; lia).
  pose proof (play_in_two_parts st_fresh [x01; x02; x03; x04]
                [x05; x06; x07; x08] 1 1 50 100 H1 ltac:(lia) ltac:(lia)
                H2 H3 H4) as H.
  cbv zeta in H.
  exact (conj H1 (conj H3 (proj1 H))).
Defined.

(** ** The graph-order callback *)

Lemma graph_unfold st latest reported :
  graph st latest reported
  = (0,
     set_jack_latency st
       (to_nframes
          (Z.quot
             (to_int
                (to_nframes
                   (to_nframes
                      (to_int (to_nframes (to_nframes 0
                                           + range_max (reported 0))))
                    + range_max (reported 1))))
             NPORTS)),
     fun j => if j =? 0 + 1 then reported (0 + 1)
              else if j =? 0 then reported 0 else latest j).
Proof. reflexivity. Qed.

Lemma to_nframes_range x : 0 <= to_nframes x < 2 ^ 32.
Proof. unfold to_nframes, wrap_unsigned. apply Z.mod_pos_bound. lia. Qed.

Lemma to_int64_range x : INT64_MIN <= to_int64 x <= INT64_MAX.
Proof.
  unfold to_int64, wrap_signed, INT64_MIN, INT64_MAX.
  pose proof (Z.mod_pos_bound (x + 2 ^ (64 - 1)) (2 ^ 64) ltac:(lia)). lia.
Qed.

(** [graph] stores what the library reports for the two ports and sets
    [jack_latency] to the average of the two maxima, rounded down, a value
    between the smaller and the larger of them; it returns [0] and leaves
    the ring buffer, the flush flag, the transfer time and the session as
    they are.  (The sum is formed in an [int]: the maxima must not add up
    to more than [INT_MAX].) *)
Theorem graph_averages_port_latencies (st : jack_state)
  (latest reported : Z -> jack_latency_range_t) :
  ranges_in_type reported ->
  range_max (reported 0) + range_max (reported 1) <= INT_MAX ->
  let m0 := range_max (reported 0) in
  let m1 := range_max (reported 1) in
  let st' := graph_state st latest reported in
  fst (fst (graph st latest reported)) = 0
  /\ jack_latency st' = (m0 + m1) / 2
  /\ Z.min m0 m1 <= jack_latency st' <= Z.max m0 m1
  /\ (m0 = m1 -> jack_latency st' = m0)
  /\ (jackbuf st' = jackbuf st
      /\ flush_please st' = flush_please st
      /\ time_of_latest_transfer st' = time_of_latest_transfer st
      /\ client st' = client st)
  /\ (forall i, 0 <= i < NPORTS ->
      snd (graph st latest reported) i = reported i)
  /\ (forall i, ~ 0 <= i < NPORTS -> snd (graph st latest reported) i = latest i).
Proof.
  intros Hty Hsum m0 m1 st'.
  destruct (Hty 0 ltac:(unfold NPORTS; lia)) as (_ & H0).
  destruct (Hty 1 ltac:(unfold NPORTS; lia)) as (_ & H1).
  fold m0 in H0, Hsum. fold m1 in H1, Hsum.
  assert (HINT : INT_MAX = 2147483647) by reflexivity.
  assert (Hlat : jack_latency st' = (m0 + m1) / 2).
  { unfold st', graph_state. rewrite graph_unfold.
    cbn [fst snd jack_latency set_jack_latency]. fold m0 m1.
    rewrite (to_nframes_small 0) by lia. rewrite Z.add_0_l.
    rewrite (to_nframes_small m0) by lia.
    rewrite (to_int_small m0) by lia.
    rewrite (to_nframes_small m0) by lia.
    rewrite (to_nframes_small (m0 + m1)) by lia.
    rewrite (to_int_small (m0 + m1)) by lia.
    unfold NPORTS. rewrite Z.quot_div_nonneg by lia.
    apply to_nframes_small.
    pose proof (Z.div_pos (m0 + m1) 2 ltac:(lia) ltac:(lia)).
    pose proof (Z.mul_div_le (m0 + m1) 2 ltac:(lia)). lia. }
  assert (Havg : Z.min m0 m1 <= (m0 + m1) / 2 <= Z.max m0 m1).
  { split.
    - apply Z.div_le_lower_bound; lia.
    - apply Z.div_le_upper_bound; lia. }
  split; [rewrite graph_unfold; reflexivity|].
  split; [exact Hlat|].
  split; [rewrite Hlat; exact Havg|].
  split; [intros E; rewrite Hlat; lia|].
  split; [unfold st', graph_state; rewrite graph_unfold; repeat split|].
  split.
  - intros i Hi. rewrite graph_unfold. cbn [snd]. unfold NPORTS in Hi.
    destruct (Z.eqb_spec i (0 + 1)) as [->|]; [reflexivity|].
    destruct (Z.eqb_spec i 0) as [->|]; [reflexivity | lia].
  - intros i Hi. rewrite graph_unfold. cbn [snd]. unfold NPORTS in Hi.
    destruct (Z.eqb_spec i (0 + 1)); [lia|].
    destruct (Z.eqb_spec i 0); [lia | reflexivity].
Qed.

Lemma two_ranges_in_type : ranges_in_type two_ranges.
Proof.
  intros i _. unfold two_ranges. destruct (i =? 0); cbn; lia.
Qed.

(** The theorem at ports of 512 and 1024 frames: 768 frames. *)
Lemma graph_averages_port_latencies_witness :
  ranges_in_type two_ranges
  /\ range_max (two_ranges 0) + range_max (two_ranges 1) <= INT_MAX
  /\ jack_latency (graph_state st_fresh no_ranges two_ranges)
     = (range_max (two_ranges 0) + range_max (two_ranges 1)) / 2.
Proof.
  assert (H1 : ranges_in_type two_ranges) by exact two_ranges_in_type.
  assert (H2 : range_max (two_ranges 0) + range_max (two_ranges 1) <= INT_MAX)
    by (unfold INT_MAX; cbn; lia).
  pose proof (graph_averages_port_latencies st_fresh no_ranges two_ranges
                H1 H2) as H.
  cbv zeta in H. destruct H as (_ & Hlat & _).
  exact (conj H1 (conj H2 Hlat)).
Defined.

(** ** What holds in every state the driver reaches *)

Lemma process_state_shape st nframes buffer :
  exists cnt,
    process_state nframes st buffer
    = set_flush_please
        (set_jackbuf st (jack_ringbuffer_read_advance (jackbuf st) cnt)) 0.
Proof.
  unfold process_state, process.
  destruct (Z.eqb_spec (flush_please st) 0) as [E|E]; cbn [negb].
  - destruct (jack_ringbuffer_get_read_vector (jackbuf st)) as [v0 v1].
    destruct (process_span (jackbuf st) v1
                (process_span (jackbuf st) v0 (nframes, 0, buffer)))
      as [[n' fw] b'].
    eexists. cbn [fst snd]. unfold set_flush_please, set_jackbuf.
    cbn [jackbuf flush_please jack_latency time_of_latest_transfer client].
    rewrite E. reflexivity.
  - eexists. reflexivity.
Qed.

Lemma driver_invariant_init handle : driver_invariant handle (jack_init handle).
Proof.
  unfold driver_invariant, INT64_MIN, INT64_MAX.
  split; [exists 20; cbn; repeat split; lia|].
  cbn. repeat split; lia.
Qed.

Lemma driver_invariant_play handle st buf samples clock :
  driver_invariant handle st ->
  driver_invariant handle (snd (play st buf samples clock)).
Proof.
  intros (Hwf & Hsz & Hfl & Hlat & Ht & Hc).
  pose proof (bytes_to_transfer_nonneg samples) as Hcnt.
  destruct (write_spec _ Hwf buf _ Hcnt) as (_ & Hsz' & _).
  rewrite play_unfold. unfold driver_invariant.
  cbn [snd jackbuf flush_please jack_latency time_of_latest_transfer client
       set_jackbuf set_time_of_latest_transfer].
  split; [apply write_wf; assumption|].
  split; [rewrite Hsz'; exact Hsz|].
  split; [exact Hfl|]. split; [exact Hlat|].
  split; [apply to_int64_range | exact Hc].
Qed.

Lemma driver_invariant_process handle st nframes buffer :
  driver_invariant handle st ->
  driver_invariant handle (process_state nframes st buffer)
  /\ flush_please (process_state nframes st buffer) = 0.
Proof.
  intros (Hwf & Hsz & Hfl & Hlat & Ht & Hc).
  destruct (process_state_shape st nframes buffer) as (cnt & ->).
  unfold driver_invariant.
  cbn [jackbuf flush_please jack_latency time_of_latest_transfer client
       set_jackbuf set_flush_please].
  split; [|reflexivity].
  split; [apply read_advance_wf; assumption|].
  split; [exact Hsz|]. split; [left; reflexivity|].
  split; [exact Hlat|]. split; [exact Ht | exact Hc].
Qed.

Lemma driver_invariant_flush handle st :
  driver_invariant handle st -> driver_invariant handle (jack_flush st).
Proof.
  intros (Hwf & Hsz & Hfl & Hlat & Ht & Hc).
  unfold driver_invariant, jack_flush.
  cbn [jackbuf flush_please jack_latency time_of_latest_transfer client
       set_flush_please].
  repeat split; try assumption; try apply Hlat; try apply Ht.
  right; reflexivity.
Qed.

Lemma driver_invariant_graph handle st latest reported :
  driver_invariant handle st ->
  driver_invariant handle (graph_state st latest reported).
Proof.
  intros (Hwf & Hsz & Hfl & Hlat & Ht & Hc).
  unfold graph_state. rewrite graph_unfold.
  unfold driver_invariant.
  cbn [fst snd jackbuf flush_please jack_latency time_of_latest_transfer
       client set_jack_latency].
  split; [exact Hwf|]. split; [exact Hsz|]. split; [exact Hfl|].
  split; [apply to_nframes_range|]. split; [exact Ht | exact Hc].
Qed.

(** However [play], the callback, [jack_flush] and [graph] are called
    one after another once [jack_init] has returned, overruns and
    underruns included: the ring buffer stays well formed with a storage
    of 1048576 bytes (the next power of two above [buffer_size]), it
    never holds more than 1048575 bytes, that is 262143 whole frames, the
    flush flag is [0] or [1], the latency and the transfer time stay in
    their types, and the session handle is the one [jack_init] opened. *)
Theorem driver_state_stays_in_bounds (handle : Z) (st : jack_state) :
  reachable handle st ->
  wf (jackbuf st)
  /\ size (jackbuf st) = 1048576
  /\ buffer_size < size (jackbuf st) <= 2 * buffer_size
  /\ 0 <= jack_ringbuffer_read_space (jackbuf st) <= 1048575
  /\ jack_ringbuffer_read_space (jackbuf st)
     + jack_ringbuffer_write_space (jackbuf st) = 1048575
  /\ 0 <= jack_ringbuffer_read_space (jackbuf st) / bytes_per_frame <= 262143
  /\ (flush_please st = 0 \/ flush_please st = 1)
  /\ 0 <= jack_latency st < 2 ^ 32
  /\ INT64_MIN <= time_of_latest_transfer st <= INT64_MAX
  /\ client st = Some handle.
Proof.
  intros Hreach.
  assert (Hinv : driver_invariant handle st).
  { induction Hreach as [|st st' _ IH Hstep].
    - apply driver_invariant_init.
    - destruct Hstep.
      + apply driver_invariant_play, IH.
      + apply driver_invariant_process, IH.
      + apply driver_invariant_flush, IH.
      + apply driver_invariant_graph, IH. }
  destruct Hinv as (Hwf & Hsz & Hfl & Hlat & Ht & Hc).
  pose proof (read_space_bounds _ Hwf) as Hrs.
  pose proof (write_space_eq _ Hwf) as Hws.
  rewrite Hsz in Hrs, Hws.
  split; [exact Hwf|]. split; [exact Hsz|].
  split; [rewrite Hsz; unfold buffer_size, bytes_per_frame; lia|].
  split; [lia|]. split; [lia|].
  split.
  - unfold bytes_per_frame. split.
    + apply Z.div_pos; lia.
    + assert (jack_ringbuffer_read_space (jackbuf st) / 4 < 262144)
        by (apply Z.div_lt_upper_bound; lia).
      lia.
  - repeat split; try assumption; try apply Hlat; try apply Ht.
Qed.

Lemma reachable_two_frames : reachable 1 st_two_frames.
Proof.
  apply (reach_step 1 st_fresh).
  - apply reach_init.
  - apply (step_play st_fresh two_frames 2 100).
    + lia.
    + unfold bytes_per_frame, INT_MAX. lia.
    + unfold bytes_per_frame. cbn. lia.
Defined.

(** The theorem after a [play], a flush request, the callback and a graph
    reorder. *)
Lemma driver_state_stays_in_bounds_witness :
  reachable 1
    (graph_state (process_state 3 (jack_flush st_two_frames) stale_ports)
       no_ranges two_ranges)
  /\ size (jackbuf
             (graph_state
                (process_state 3 (jack_flush st_two_frames) stale_ports)
                no_ranges two_ranges)) = 1048576.
Proof.
  assert (H3 : 0 <= 3 <= INT_MAX) by (unfold INT_MAX; lia).
  assert (Hreach :
    reachable 1
      (graph_state (process_state 3 (jack_flush st_two_frames) stale_ports)
         no_ranges two_ranges)).
  { eapply reach_step;
      [eapply reach_step;
        [eapply reach_step; [exact reachable_two_frames | apply step_flush]
        | apply step_process; exact H3]
      | apply step_graph; exact two_ranges_in_type]. }
  exact (conj Hreach
           (proj1 (proj2 (driver_state_stays_in_bounds 1 _ Hreach)))).
Defined.

(** ** Runs without an overrun *)

Lemma read_space_on_grid rb :
  wf rb -> on_frame_grid rb ->
  jack_ringbuffer_read_space rb mod bytes_per_frame = 0.
Proof.
  intros Hwf [Hr Hw].
  pose proof (size_bounds rb Hwf) as Hs.
  pose proof (size_frames rb Hwf) as Hs4.
  rewrite (read_space_mod rb Hwf).
  rewrite Z.mod_mod_divide
    by (apply Z.mod_divide; [unfold bytes_per_frame; lia | exact Hs4]).
  rewrite Zminus_mod, Hr, Hw. reflexivity.
Qed.

(** On the frame grid the two spans hold whole frames only, and the
    callback takes every frame that is queued, up to [nframes]. *)
Lemma frames_taken_on_grid rb nframes :
  wf rb -> on_frame_grid rb -> 0 <= nframes ->
  frames_taken rb nframes
  = Z.min (jack_ringbuffer_read_space rb / bytes_per_frame) nframes.
Proof.
  intros Hwf Hgrid Hn.
  pose proof (size_bounds rb Hwf) as Hs. pose proof (ptr_bounds rb Hwf) as Hp.
  pose proof (read_space_bounds rb Hwf) as Hrs.
  pose proof (size_frames rb Hwf) as Hs4.
  pose proof (read_space_on_grid rb Hwf Hgrid) as Hn4.
  destruct Hgrid as [Hr4 _].
  unfold bytes_per_frame in *.
  apply Z.div_exact in Hs4, Hn4, Hr4; try lia.
  set (qs := size rb / 4) in *.
  set (qn := jack_ringbuffer_read_space rb / 4) in *.
  set (qr := read_ptr rb / 4) in *.
  unfold frames_taken. rewrite (get_read_vector_spans rb Hwf). cbv zeta.
  destruct (Z.gtb_spec (read_ptr rb + jack_ringbuffer_read_space rb) (size rb))
    as [Hwrap|Hwrap]; cbn [len]; unfold bytes_per_frame.
  - rewrite Hs4, Hr4, Hn4.
    replace (4 * qs - 4 * qr) with ((qs - qr) * 4) by lia.
    replace (4 * qr + 4 * qn - 4 * qs) with ((qr + qn - qs) * 4) by lia.
    rewrite !Z.div_mul by lia. lia.
  - fold qn. change (0 / 4) with 0. lia.
Qed.

(** As long as every [play] fits the free space, however the calls
    follow one another: both cursors of the ring buffer stay on frame
    boundaries, the queue holds whole frames only, the free space is one
    byte short of a whole number of frames, and the callback takes every
    queued frame up to the number required: no frame is ever split. *)
Theorem no_overrun_keeps_whole_frames (handle : Z) (st : jack_state) :
  reachable_fitting handle st ->
  wf (jackbuf st)
  /\ on_frame_grid (jackbuf st)
  /\ jack_ringbuffer_read_space (jackbuf st) mod bytes_per_frame = 0
  /\ jack_ringbuffer_write_space (jackbuf st) mod bytes_per_frame = 3
  /\ forall nframes, 0 <= nframes ->
       frames_taken (jackbuf st) nframes
       = Z.min (jack_ringbuffer_read_space (jackbuf st) / bytes_per_frame)
               nframes.
Proof.
  intros Hreach.
  assert (Hinv : wf (jackbuf st) /\ on_frame_grid (jackbuf st)).
  { induction Hreach as [|st st' _ [Hwf Hgrid] Hstep].
    - split; [exists 20; cbn; repeat split; lia
             | apply jack_init_on_frame_grid].
    - destruct Hstep.
      + split; [apply play_wf; assumption
               | apply play_keeps_frame_grid; assumption].
      + split; [apply process_wf; assumption
               | apply process_keeps_frame_grid; assumption].
      + split; assumption.
      + unfold graph_state. rewrite graph_unfold. split; assumption. }
  destruct Hinv as [Hwf Hgrid].
  pose proof (read_space_on_grid _ Hwf Hgrid) as Hn4.
  split; [exact Hwf|]. split; [exact Hgrid|]. split; [exact Hn4|].
  split.
  - pose proof (size_frames _ Hwf) as Hs4.
    pose proof (size_bounds _ Hwf) as Hs.
    pose proof (read_space_bounds _ Hwf) as Hrs.
    rewrite (write_space_eq _ Hwf). unfold bytes_per_frame in *.
    apply Z.div_exact in Hs4, Hn4; try lia.
    rewrite Hs4, Hn4.
    replace (4 * (size (jackbuf st) / 4) - 1
             - 4 * (jack_ringbuffer_read_space (jackbuf st) / 4))
      with (3 + (size (jackbuf st) / 4
                 - jack_ringbuffer_read_space (jackbuf st) / 4 - 1) * 4)
      by lia.
    rewrite Z_mod_plus_full. reflexivity.
  - intros nframes Hn. apply frames_taken_on_grid; assumption.
Qed.

Lemma reachable_fitting_two_frames : reachable_fitting 1 st_two_frames.
Proof.
  apply (fitting_next 1 st_fresh).
  - apply fitting_init.
  - apply (fit_play st_fresh two_frames 2 100).
    + lia.
    + unfold bytes_per_frame. cbn. lia.
    + unfold bytes_per_frame. cbn. lia.
Defined.

(** The theorem after a [play] of two frames and a callback for one. *)
Lemma no_overrun_keeps_whole_frames_witness :
  reachable_fitting 1 (process_state 1 st_two_frames stale_ports)
  /\ on_frame_grid (jackbuf (process_state 1 st_two_frames stale_ports)).
Proof.
  assert (Hreach :
    reachable_fitting 1 (process_state 1 st_two_frames stale_ports)).
  { eapply fitting_next; [exact reachable_fitting_two_frames|].
    apply fit_process. unfold INT_MAX. lia. }
  exact (conj Hreach
           (proj1 (proj2 (no_overrun_keeps_whole_frames 1 _ Hreach)))).
Defined.

(** ** The delay estimate as the clock moves on *)

Lemma div_add_bounds a b :
  0 <= b ->
  a / 2 ^ 32 + b / 2 ^ 32 <= (a + b) / 2 ^ 32 <= a / 2 ^ 32 + b / 2 ^ 32 + 1.
Proof.
  intros Hb.
  pose proof (Z.div_mod a (2 ^ 32) ltac:(lia)) as Ha.
  pose proof (Z.mod_pos_bound a (2 ^ 32) ltac:(lia)) as Hra.
  pose proof (Z.div_mod b (2 ^ 32) ltac:(lia)) as Hb'.
  pose proof (Z.mod_pos_bound b (2 ^ 32) ltac:(lia)) as Hrb.
  pose proof (Z.div_mod (a + b) (2 ^ 32) ltac:(lia)) as Hab.
  pose proof (Z.mod_pos_bound (a + b) (2 ^ 32) ltac:(lia)) as Hrab.
  lia.
Qed.

Lemma div_lt_iff a q : a / 2 ^ 32 < q <-> a < q * 2 ^ 32.
Proof.
  pose proof (Z.div_mod a (2 ^ 32) ltac:(lia)) as Ha.
  pose proof (Z.mod_pos_bound a (2 ^ 32) ltac:(lia)) as Hra.
  lia.
Qed.

(** The estimate is not negative exactly as long as the frames played
    since the latest transfer, at 44100 per second of the 32.32
    fixed-point clock, are not more than the latency and the whole frames
    queued; and it exceeds the latency plus the queued frames exactly when
    the clock reads less than the time of the latest transfer. *)
Theorem jack_delay_sign_threshold (st : jack_state) (clock : Z) :
  wf (jackbuf st) ->
  0 <= jack_latency st < 2 ^ 32 ->
  INT64_MIN <= clock <= INT64_MAX ->
  INT64_MIN <= (clock - time_of_latest_transfer st) * 44100 <= INT64_MAX ->
  let queued := jack_ringbuffer_read_space (jackbuf st) / bytes_per_frame in
  (0 <= snd (jack_delay st clock)
   <-> (clock - time_of_latest_transfer st) * 44100
       < (jack_latency st + queued + 1) * 2 ^ 32)
  /\ (jack_latency st + queued < snd (jack_delay st clock)
      <-> clock < time_of_latest_transfer st)
  /\ (clock = time_of_latest_transfer st ->
      snd (jack_delay st clock) = jack_latency st + queued).
Proof.
  intros Hwf Hlat Hclock Hprod queued.
  rewrite (jack_delay_exact st clock Hwf Hlat Hclock Hprod). fold queued.
  set (a := (clock - time_of_latest_transfer st) * 44100) in *.
  pose proof (div_lt_iff a (jack_latency st + queued + 1)) as H1.
  pose proof (div_lt_iff a 0) as H0.
  split; [|split].
  - lia.
  - unfold a in *. lia.
  - intros E. unfold a. rewrite E, Z.sub_diag. cbn. lia.
Qed.

(** The theorem one second after two frames were queued: the estimate
    is negative, the second being more than two frames. *)
Lemma jack_delay_sign_threshold_witness :
  wf (jackbuf st_two_frames)
  /\ INT64_MIN <= 100 + 2 ^ 32 <= INT64_MAX
  /\ (0 <= snd (jack_delay st_two_frames (100 + 2 ^ 32))
      <-> (100 + 2 ^ 32 - time_of_latest_transfer st_two_frames) * 44100
          < (jack_latency st_two_frames
             + jack_ringbuffer_read_space (jackbuf st_two_frames)
               / bytes_per_frame + 1) * 2 ^ 32).
Proof.
  assert (H1 : wf (jackbuf st_two_frames)) by exact two_frames_wf.
  assert (H2 : 0 <= jack_latency st_two_frames < 2 ^ 32) by (cbn; lia).
  assert (H3 : INT64_MIN <= 100 + 2 ^ 32 <= INT64_MAX)
    by (unfold INT64_MIN, INT64_MAX; lia).
  assert (H4 : INT64_MIN
               <= (100 + 2 ^ 32 - time_of_latest_transfer st_two_frames) * 44100
               <= INT64_MAX)
    by (unfold INT64_MIN, INT64_MAX; cbn; lia).
  exact (conj H1 (conj H3
           (proj1 (jack_delay_sign_threshold st_two_frames (100 + 2 ^ 32)
                     H1 H2 H3 H4)))).
Defined.

(** Between two readings of the clock with no call in between the
    estimate never grows: it falls by the frames played in the time
    between them, [(clock2 - clock1) * 44100 / 2 ^ 32] or one more, and by
    44100 exactly for each second. *)
Theorem jack_delay_counts_down (st : jack_state) (clock1 clock2 : Z) :
  wf (jackbuf st) ->
  0 <= jack_latency st < 2 ^ 32 ->
  INT64_MIN <= clock1 -> clock1 <= clock2 -> clock2 <= INT64_MAX ->
  INT64_MIN <= (clock1 - time_of_latest_transfer st) * 44100 ->
  (clock2 - time_of_latest_transfer st) * 44100 <= INT64_MAX ->
  let d1 := snd (jack_delay st clock1) in
  let d2 := snd (jack_delay st clock2) in
  d2 <= d1
  /\ (clock2 - clock1) * 44100 / 2 ^ 32
     <= d1 - d2
     <= (clock2 - clock1) * 44100 / 2 ^ 32 + 1
  /\ (forall s, clock2 = clock1 + s * 2 ^ 32 -> d2 = d1 - s * 44100).
Proof.
  intros Hwf Hlat Hc1 Hle Hc2 Hp1 Hp2 d1 d2.
  unfold d1, d2.
  rewrite (jack_delay_exact st clock1) by (assumption || lia).
  rewrite (jack_delay_exact st clock2) by (assumption || lia).
  set (t := time_of_latest_transfer st) in *.
  set (base := jack_latency st
               + jack_ringbuffer_read_space (jackbuf st) / bytes_per_frame).
  pose proof (div_add_bounds ((clock1 - t) * 44100) ((clock2 - clock1) * 44100)
                ltac:(lia)) as Hb.
  replace ((clock1 - t) * 44100 + (clock2 - clock1) * 44100)
    with ((clock2 - t) * 44100) in Hb by lia.
  assert (H0 : 0 <= (clock2 - clock1) * 44100 / 2 ^ 32)
    by (apply Z.div_pos; lia).
  split; [lia|]. split; [lia|].
  intros s ->.
  replace ((clock1 + s * 2 ^ 32 - t) * 44100)
    with ((clock1 - t) * 44100 + s * 44100 * 2 ^ 32) by lia.
  rewrite Z.div_add by lia. lia.
Qed.

(** The theorem for two frames queued at time 100, read at once and a
    second later. *)
Lemma jack_delay_counts_down_witness :
  wf (jackbuf st_two_frames)
  /\ 100 <= 100 + 2 ^ 32
  /\ snd (jack_delay st_two_frames (100 + 2 ^ 32))
     <= snd (jack_delay st_two_frames 100).
Proof.
  assert (H1 : wf (jackbuf st_two_frames)) by exact two_frames_wf.
  assert (H2 : 0 <= jack_latency st_two_frames < 2 ^ 32) by (cbn; lia).
  assert (H3 : INT64_MIN <= 100) by (unfold INT64_MIN; lia).
  assert (H4 : 100 <= 100 + 2 ^ 32) by lia.
  assert (H5 : 100 + 2 ^ 32 <= INT64_MAX) by (unfold INT64_MAX; lia).
  assert (H6 : INT64_MIN
               <= (100 - time_of_latest_transfer st_two_frames) * 44100)
    by (unfold INT64_MIN; cbn; lia).
  assert (H7 : (100 + 2 ^ 32 - time_of_latest_transfer st_two_frames) * 44100
               <= INT64_MAX)
    by (unfold INT64_MAX; cbn; lia).
  exact (conj H1 (conj H4
           (proj1 (jack_delay_counts_down st_two_frames 100 (100 + 2 ^ 32)
                     H1 H2 H3 H4 H5 H6 H7)))).
Defined.

(** ** The delay estimate after a transfer *)

(** A [play] restarts the count: whatever the time of the transfer
    before it, the estimate read [d] clock units after a [play] that fits
    is the latency plus the frames queued, those just written included,
    less the frames played in [d]; read at the time of the [play] it is
    the latency plus the frames queued. *)
Theorem jack_delay_after_play (st : jack_state) (buf : list byte)
  (samples clock d : Z) :
  wf (jackbuf st) ->
  0 <= jack_latency st < 2 ^ 32 ->
  0 <= samples ->
  bytes_per_frame * samples <= jack_ringbuffer_write_space (jackbuf st) ->
  INT64_MIN <= clock <= INT64_MAX ->
  INT64_MIN <= clock + d <= INT64_MAX ->
  INT64_MIN <= d * 44100 <= INT64_MAX ->
  let st' := snd (play st buf samples clock) in
  let queued := jack_ringbuffer_read_space (jackbuf st) / bytes_per_frame in
  snd (jack_delay st' (clock + d))
  = jack_latency st + queued + samples - d * 44100 / 2 ^ 32
  /\ snd (jack_delay st' clock) = jack_latency st + queued + samples.
Proof.
  intros Hwf Hlat Hs Hfit Hclock Hcd Hd st' queued.
  pose proof (size_bounds _ Hwf) as Hsz.
  pose proof (read_space_bounds _ Hwf) as Hrs.
  pose proof (write_space_eq _ Hwf) as Hws.
  assert (Hbpf : bytes_per_frame = 4) by reflexivity.
  assert (HINT : INT_MAX = 2147483647) by reflexivity.
  destruct (play_spec st buf samples clock Hwf Hs ltac:(lia))
    as (Hst & _ & _ & Hwf' & _ & _ & _ & Hsp & _).
  fold st' in Hst, Hwf', Hsp.
  rewrite Z.min_l in Hsp by lia.
  assert (Ht : time_of_latest_transfer st' = clock).
  { rewrite Hst. cbn. apply to_int64_small. exact Hclock. }
  assert (Hl : jack_latency st' = jack_latency st)
    by (rewrite Hst; reflexivity).
  assert (Hq : jack_ringbuffer_read_space (jackbuf st') / bytes_per_frame
               = queued + samples).
  { rewrite Hsp. unfold queued.
    rewrite (Z.mul_comm bytes_per_frame), Z.div_add by lia. reflexivity. }
  assert (Hgen : forall e, INT64_MIN <= clock + e <= INT64_MAX ->
            INT64_MIN <= e * 44100 <= INT64_MAX ->
            snd (jack_delay st' (clock + e))
            = jack_latency st + queued + samples - e * 44100 / 2 ^ 32).
  { intros e He1 He2.
    rewrite jack_delay_exact; rewrite ?Ht, ?Hl, ?Hq; try assumption.
    - replace (clock + e - clock) with e by lia. lia.
    - replace (clock + e - clock) with e by lia. exact He2. }
  split; [apply Hgen; assumption|].
  pose proof (Hgen 0 ltac:(unfold INT64_MIN, INT64_MAX in *; lia)
                ltac:(unfold INT64_MIN, INT64_MAX; lia)) as H0.
  rewrite Z.add_0_r in H0. rewrite H0. cbn. lia.
Qed.

(** The theorem at the fresh buffer: two frames written at time 100, the
    delay read a second later. *)
Lemma jack_delay_after_play_witness :
  wf (jackbuf st_fresh)
  /\ bytes_per_frame * 2 <= jack_ringbuffer_write_space (jackbuf st_fresh)
  /\ snd (jack_delay (snd (play st_fresh two_frames 2 100)) (100 + 2 ^ 32))
     = jack_latency st_fresh
       + jack_ringbuffer_read_space (jackbuf st_fresh) / bytes_per_frame
       + 2 - 2 ^ 32 * 44100 / 2 ^ 32.
Proof.
  assert (H1 : wf (jackbuf st_fresh)) by exact st_fresh_wf.
  assert (H2 : 0 <= jack_latency st_fresh < 2 ^ 32) by (cbn; lia).
  assert (H4 : bytes_per_frame * 2
               <= jack_ringbuffer_write_space (jackbuf st_fresh))
    by (vm_compute; discriminate).
  assert (H5 : INT64_MIN <= 100 <= INT64_MAX)
    by (unfold INT64_MIN, INT64_MAX; lia).
  assert (H6 : INT64_MIN <= 100 + 2 ^ 32 <= INT64_MAX)
    by (unfold INT64_MIN, INT64_MAX; lia).
  assert (H7 : INT64_MIN <= 2 ^ 32 * 44100 <= INT64_MAX)
    by (unfold INT64_MIN, INT64_MAX; lia).
  exact (conj H1 (conj H4
           (proj1 (jack_delay_after_play st_fresh two_frames 2 100 (2 ^ 32)
                     H1 H2 ltac:(lia) H4 H5 H6 H7)))).
Defined.

(** ** The converter loop at its bounds *)

(** [deinterleave_and_convert] writes the frames [offset] to
    [offset + nframes - 1] of the two ports and nothing else: frame [f] of
    port [i] is the conversion of the 16-bit sample number
    [NPORTS * (f - offset) + i] of the interleaved input, so the samples
    of a frame go to the ports in the order they are stored.  With
    [nframes = 0] it writes nothing; and when [offset + nframes] does not
    fit a [jack_nframes_t] the loop bound wraps around below [offset] and
    it writes nothing either. *)
Theorem deinterleave_and_convert_frames (mem : Z -> byte) (ifp : Z)
  (jack_buffer : port_buffers) (offset nframes : Z) :
  0 <= offset < 2 ^ 32 -> 0 <= nframes < 2 ^ 32 ->
  let out := deinterleave_and_convert mem ifp jack_buffer offset nframes in
  (offset + nframes < 2 ^ 32 ->
   (forall i f, 0 <= i < NPORTS -> offset <= f < offset + nframes ->
      out i f
      = sample_conv (load_short mem (ifp + 2 * (NPORTS * (f - offset) + i))))
   /\ (forall i f, ~ (0 <= i < NPORTS /\ offset <= f < offset + nframes) ->
       out i f = jack_buffer i f))
  /\ (2 ^ 32 <= offset + nframes -> forall i f, out i f = jack_buffer i f)
  /\ (nframes = 0 -> forall i f, out i f = jack_buffer i f).
Proof.
  intros Ho Hn out. split; [|split].
  - intros Hsum. split.
    + intros i f Hi Hf. unfold out.
      rewrite deinterleave_and_convert_spec by lia.
      unfold NPORTS, bytes_per_frame in *. case_cmp. do 2 f_equal. lia.
    + intros i f Hno. unfold out.
      rewrite deinterleave_and_convert_spec by lia.
      unfold NPORTS in *. now case_cmp.
  - intros Hwrap i f. unfold out, deinterleave_and_convert.
    replace (to_nframes (nframes + offset)) with (nframes + offset - 2 ^ 32).
    + replace (Z.to_nat (nframes + offset - 2 ^ 32 - offset)) with 0%nat by lia.
      reflexivity.
    + unfold to_nframes, wrap_unsigned. symmetry. apply mod_above. lia.
  - intros -> i f. unfold out, deinterleave_and_convert.
    rewrite Z.add_0_l, to_nframes_small, Z.sub_diag by lia. reflexivity.
Qed.

(** The theorem at two frames in memory, converted to frames 3 and 4. *)
Lemma deinterleave_and_convert_frames_witness :
  0 <= 3 < 2 ^ 32
  /\ 0 <= 2 < 2 ^ 32
  /\ deinterleave_and_convert two_frames_mem 0 stale_ports 3 2 1 4
     = sample_conv (load_short two_frames_mem (0 + 2 * (NPORTS * (4 - 3) + 1))).
Proof.
  assert (H1 : 0 <= 3 < 2 ^ 32) by lia.
  assert (H2 : 0 <= 2 < 2 ^ 32) by lia.
  assert (Hi : 0 <= 1 < NPORTS) by (unfold NPORTS; lia).
  exact (conj H1 (conj H2
           (proj1 (proj1 (deinterleave_and_convert_frames two_frames_mem 0
                            stale_ports 3 2 H1 H2) ltac:(lia))
              1 4 Hi ltac:(lia)))).
Defined.

(** ** The order of the converted samples *)

Lemma inject_Z_succ_le s s' : s < s' -> (inject_Z s + 1 <= inject_Z s')%Q.
Proof.
  intros H. change 1%Q with (inject_Z 1).
  rewrite <- inject_Z_plus, <- Zle_Qle. lia.
Qed.

Lemma order_above_zero (x x' : Q) (s s' : Z) :
  s < s' ->
  (Qabs (x - (s # 32767)) <= 1 # 33554432)%Q ->
  (Qabs (x' - (s' # 32767)) <= 1 # 33554432)%Q ->
  (x < x')%Q.
Proof.
  intros Hlt H H'.
  apply Qabs_Qle_condition in H, H'.
  rewrite (Qmake_Qdiv s), (Qmake_Qdiv s') in *.
  pose proof (inject_Z_succ_le s s' Hlt) as Hq.
  unfold Qdiv in *.
  change (/ inject_Z (Z.pos 32767))%Q with (1 # 32767)%Q in *.
  set (a := inject_Z s) in *. set (b := inject_Z s') in *.
  lra.
Qed.

Lemma order_below_zero (x x' : Q) (s s' : Z) :
  s < s' ->
  (x == s # 32768)%Q -> (x' == s' # 32768)%Q -> (x < x')%Q.
Proof.
  intros Hlt H H'.
  rewrite (Qmake_Qdiv s) in H. rewrite (Qmake_Qdiv s') in H'.
  pose proof (inject_Z_succ_le s s' Hlt) as Hq.
  unfold Qdiv in *.
  change (/ inject_Z (Z.pos 32768))%Q with (1 # 32768)%Q in *.
  set (a := inject_Z s) in *. set (b := inject_Z s') in *.
  lra.
Qed.

Lemma order_across_zero (x x' : Q) (s s' : Z) :
  s < 0 -> 0 <= s' ->
  (x == s # 32768)%Q ->
  (Qabs (x' - (s' # 32767)) <= 1 # 33554432)%Q ->
  (x < x')%Q.
Proof.
  intros Hs Hs' H H'.
  apply Qabs_Qle_condition in H'.
  rewrite (Qmake_Qdiv s) in H. rewrite (Qmake_Qdiv s') in H'.
  pose proof (inject_Z_succ_le s 0 Hs) as Hq.
  assert (Hq' : (0 <= inject_Z s')%Q)
    by (change 0%Q with (inject_Z 0); rewrite <- Zle_Qle; lia).
  change (inject_Z 0) with 0%Q in *.
  unfold Qdiv in *.
  change (/ inject_Z (Z.pos 32767))%Q with (1 # 32767)%Q in *.
  change (/ inject_Z (Z.pos 32768))%Q with (1 # 32768)%Q in *.
  set (a := inject_Z s) in *. set (b := inject_Z s') in *.
  lra.
Qed.

Lemma sample_conv_below_zero s :
  SHRT_MIN <= s -> s < 0 -> (F2Q (sample_conv s) == s # 32768)%Q.
Proof.
  intros Hlo Hneg.
  pose proof (sample_conv_ok_all s ltac:(unfold SHRT_MAX; lia)) as Hok.
  unfold sample_conv_ok in Hok. cbv zeta in Hok.
  apply andb_prop in Hok. destruct Hok as [_ Hval].
  destruct (Z.ltb_spec s 0); [|lia].
  apply Qeq_bool_iff. exact Hval.
Qed.

Lemma sample_conv_above_zero s :
  0 <= s -> s <= SHRT_MAX ->
  (Qabs (F2Q (sample_conv s) - (s # 32767)) <= 1 # 33554432)%Q.
Proof.
  intros Hpos Hhi.
  pose proof (sample_conv_ok_all s ltac:(unfold SHRT_MIN; lia)) as Hok.
  unfold sample_conv_ok in Hok. cbv zeta in Hok.
  apply andb_prop in Hok. destruct Hok as [_ Hval].
  destruct (Z.ltb_spec s 0); [lia|].
  apply Qle_bool_iff. exact Hval.
Qed.

(** [sample_conv] keeps the order of the samples: of two 16-bit samples
    the larger one is converted to the float of the larger value, also
    across zero where the divisor changes, so no two samples are
    converted to the same float, and a sample below zero gives a value
    below zero, a sample above zero a value above zero. *)
Theorem sample_conv_strictly_increasing (s s' : Z) :
  SHRT_MIN <= s -> s < s' -> s' <= SHRT_MAX ->
  (F2Q (sample_conv s) < F2Q (sample_conv s'))%Q
  /\ sample_conv s <> sample_conv s'
  /\ (s' = 0 -> (F2Q (sample_conv s) < 0)%Q)
  /\ (s = 0 -> (0 < F2Q (sample_conv s'))%Q).
Proof.
  intros Hlo Hlt Hhi.
  assert (Hord : (F2Q (sample_conv s) < F2Q (sample_conv s'))%Q).
  { destruct (Z.lt_ge_cases s' 0) as [Hn'|Hp'].
    - apply (order_below_zero _ _ s s' Hlt);
        apply sample_conv_below_zero; lia.
    - destruct (Z.lt_ge_cases s 0) as [Hn|Hp].
      + apply (order_across_zero _ _ s s' Hn Hp').
        * apply sample_conv_below_zero; lia.
        * apply sample_conv_above_zero; lia.
      + apply (order_above_zero _ _ s s' Hlt);
          apply sample_conv_above_zero; lia. }
  split; [exact Hord|]. split; [|split].
  - intros E. rewrite E in Hord. exact (Qlt_irrefl _ Hord).
  - intros E. rewrite E in Hord. exact Hord.
  - intros E. rewrite E in Hord. exact Hord.
Qed.

(** The theorem at the two samples next to zero. *)
Lemma sample_conv_strictly_increasing_witness :
  SHRT_MIN <= -1
  /\ -1 < 1
  /\ 1 <= SHRT_MAX
  /\ (F2Q (sample_conv (-1)) < F2Q (sample_conv 1))%Q.
Proof.
  assert (H1 : SHRT_MIN <= -1) by (unfold SHRT_MIN; lia).
  assert (H2 : -1 < 1) by lia.
  assert (H3 : 1 <= SHRT_MAX) by (unfold SHRT_MAX; lia).
  exact (conj H1 (conj H2 (conj H3
           (proj1 (sample_conv_strictly_increasing (-1) 1 H1 H2 H3))))).
Defined.

(** ** Playback after a flush *)

Lemma frame_sample_firstn (q : list byte) (m f i : Z) :
  0 <= f < m -> 0 <= i < NPORTS ->
  frame_sample (firstn (Z.to_nat (bytes_per_frame * m)) q) f i
  = frame_sample q f i.
Proof.
  intros Hf Hi.
  unfold frame_sample, queued_sample, NPORTS, bytes_per_frame in *.
  rewrite !nth_firstn.
  destruct (Nat.ltb_spec (Z.to_nat (2 * (2 * f + i))) (Z.to_nat (4 * m)));
    [|lia].
  destruct (Nat.ltb_spec (Z.to_nat (2 * (2 * f + i) + 1)) (Z.to_nat (4 * m)));
    [|lia].
  reflexivity.
Qed.

(** Once the callback has acted on a flush request, playback starts
    afresh: if the write cursor was on a frame boundary, the frames of the
    next [play] are the first to come out of the callback after it, in the
    order written and followed by silence, whatever was queued before the
    flush and wherever the read cursor stood. *)
Theorem playback_resumes_after_flush (st : jack_state) (buf : list byte)
  (samples clock n0 nframes : Z) (buffer0 buffer : port_buffers) :
  wf (jackbuf st) ->
  write_ptr (jackbuf st) mod bytes_per_frame = 0 ->
  0 <= n0 <= INT_MAX ->
  0 <= samples ->
  bytes_per_frame * samples <= Z.of_nat (length buf) ->
  bytes_per_frame * samples <= size (jackbuf st) - 1 ->
  0 <= nframes <= INT_MAX ->
  let st1 := process_state n0 (jack_flush st) buffer0 in
  let st2 := snd (play st1 buf samples clock) in
  let st3 := process_state nframes st2 buffer in
  let out := process_output nframes st2 buffer in
  contents (jackbuf st1) = []
  /\ contents (jackbuf st2) = firstn (Z.to_nat (bytes_per_frame * samples)) buf
  /\ (forall i f, 0 <= i < NPORTS -> 0 <= f < nframes ->
      out i f = if f <? samples
                then sample_conv (frame_sample buf f i)
                else 0%float)
  /\ jack_ringbuffer_read_space (jackbuf st3)
     = bytes_per_frame * (samples - Z.min samples nframes).
Proof.
  intros Hwf Hw4 Hn0 Hs Hlen Hfit Hn st1 st2 st3 out.
  pose proof (size_bounds _ Hwf) as Hsz.
  assert (Hbpf : bytes_per_frame = 4) by reflexivity.
  assert (HINT : INT_MAX = 2147483647) by reflexivity.
  assert (Hfl : flush_please (jack_flush st) <> 0) by (cbn; discriminate).
  assert (Hwfj : wf (jackbuf (jack_flush st))) by exact Hwf.
  pose proof (process_flush_read_ptr (jack_flush st) n0 buffer0 Hwfj Hfl)
    as Hr1.
  pose proof (process_flush_empty (jack_flush st) n0 buffer0 Hwfj Hfl)
    as He1.
  fold st1 in Hr1, He1. rewrite jack_flush_jackbuf in Hr1.
  assert (Hwf1 : wf (jackbuf st1)) by (apply process_wf; exact Hwfj).
  assert (Hsz1 : size (jackbuf st1) = size (jackbuf st)).
  { unfold st1, process_state. rewrite process_flush_unfold by assumption.
    reflexivity. }
  assert (Hf1 : flush_please st1 = 0).
  { unfold st1, process_state. rewrite process_flush_unfold by assumption.
    reflexivity. }
  assert (Hc1 : contents (jackbuf st1) = [])
    by (unfold contents; rewrite He1; reflexivity).
  pose proof (write_space_eq _ Hwf1) as Hws1. rewrite He1, Hsz1 in Hws1.
  destruct (play_spec st1 buf samples clock Hwf1 Hs ltac:(lia))
    as (Hst2 & _ & _ & Hwf2 & _ & Hr2 & _ & Hsp2 & _ & Hc2).
  fold st2 in Hst2, Hwf2, Hr2, Hsp2, Hc2.
  rewrite Z.min_l in Hsp2, Hc2 by lia.
  rewrite He1, Z.add_0_l in Hsp2.
  rewrite Hc1 in Hc2. cbn [app] in Hc2. specialize (Hc2 Hlen).
  assert (Hf2 : flush_please st2 = 0) by (rewrite Hst2; exact Hf1).
  assert (Hal2 : read_ptr (jackbuf st2) mod bytes_per_frame = 0)
    by (rewrite Hr2, Hr1; exact Hw4).
  destruct (process_play_spec st2 nframes buffer Hwf2 Hf2 Hal2 Hn)
    as (_ & Hst3 & Hout).
  fold st3 in Hst3. rewrite Hsp2 in Hst3, Hout.
  rewrite (Z.mul_comm bytes_per_frame samples), Z.div_mul in Hst3, Hout by lia.
  split; [exact Hc1|]. split; [exact Hc2|]. split.
  - intros i f Hi Hf. unfold out. rewrite Hout, Hc2.
    unfold NPORTS in Hi.
    destruct (Z.leb_spec 0 i); [|lia]. destruct (Z.ltb_spec i NPORTS);
      [|unfold NPORTS in *; lia].
    destruct (Z.leb_spec 0 f); [|lia]. destruct (Z.ltb_spec f nframes); [|lia].
    cbn [andb].
    destruct (Z.ltb_spec f (Z.min samples nframes));
      destruct (Z.ltb_spec f samples); try lia; [|reflexivity].
    rewrite frame_sample_firstn by (unfold NPORTS; lia). reflexivity.
  - rewrite Hst3. cbn [jackbuf set_jackbuf].
    rewrite (read_advance_space _ Hwf2) by (rewrite Hsp2; lia).
    rewrite Hsp2. lia.
Qed.

(** The theorem at two stale frames flushed and two hundred loud frames
    written after the callback served the flush. *)
Lemma playback_resumes_after_flush_witness :
  wf (jackbuf st_two_frames)
  /\ write_ptr (jackbuf st_two_frames) mod bytes_per_frame = 0
  /\ bytes_per_frame * 200 <= Z.of_nat (length loud_frames)
  /\ process_output 256
       (snd (play (process_state 64 (jack_flush st_two_frames) stale_ports)
               loud_frames 200 500)) stale_ports 0 0
     = (if 0 <? 200 then sample_conv (frame_sample loud_frames 0 0)
        else 0%float).
Proof.
  assert (H1 : wf (jackbuf st_two_frames)) by exact two_frames_wf.
  assert (H2 : write_ptr (jackbuf st_two_frames) mod bytes_per_frame = 0)
    by reflexivity.
  assert (H3 : 0 <= 64 <= INT_MAX) by (unfold INT_MAX; lia).
  assert (H4 : bytes_per_frame * 200 <= Z.of_nat (length loud_frames))
    by (vm_compute; discriminate).
  assert (H5 : bytes_per_frame * 200 <= size (jackbuf st_two_frames) - 1)
    by (vm_compute; discriminate).
  assert (H6 : 0 <= 256 <= INT_MAX) by (unfold INT_MAX; lia).
  assert (Hi : 0 <= 0 < NPORTS) by (unfold NPORTS; lia).
  pose proof (playback_resumes_after_flush st_two_frames loud_frames 200 500
                64 256 stale_ports stale_ports H1 H2 H3 ltac:(lia) H4 H5 H6)
    as H.
  cbv zeta in H. destruct H as (_ & _ & Hout & _).
  exact (conj H1 (conj H2 (conj H4 (Hout 0 0 Hi ltac:(lia))))).
Defined.

(** ** Starting the driver *)

Lemma read_port_list_name port_list i :
  0 <= i < Z.of_nat (length port_list) ->
  Startup.read_port_list port_list i
  = Some (Some (nth (Z.to_nat i) port_list String.EmptyString)).
Proof.
  intros Hi. unfold Startup.read_port_list.
  destruct (Z.ltb_spec i 0); [lia|].
  destruct (Z.ltb_spec i (Z.of_nat (length port_list))); [|lia].
  f_equal. apply nth_error_nth'. lia.
Qed.

Lemma read_port_list_end port_list :
  Startup.read_port_list port_list (Z.of_nat (length port_list)) = Some None.
Proof.
  unfold Startup.read_port_list.
  destruct (Z.ltb_spec (Z.of_nat (length port_list)) 0); [lia|].
  rewrite Z.ltb_irrefl, Z.eqb_refl. reflexivity.
Qed.

Lemma read_port_list_outside port_list i :
  Z.of_nat (length port_list) < i ->
  Startup.read_port_list port_list i = None.
Proof.
  intros Hi. unfold Startup.read_port_list.
  destruct (Z.ltb_spec i 0); [reflexivity|].
  destruct (Z.ltb_spec i (Z.of_nat (length port_list))); [lia|].
  destruct (Z.eqb_spec i (Z.of_nat (length port_list))); [lia | reflexivity].
Qed.

(** The loop over the additional ports ends at the terminator, one
    message later for each name before it. *)
Lemma additional_ports_spec port_list :
  forall (fuel : nat) (i : Z) (log : list Startup.message),
  0 <= i <= Z.of_nat (length port_list) ->
  (length port_list - Z.to_nat i < fuel)%nat ->
  Startup.additional_ports fuel port_list i log
  = Some (Some (log ++ repeat Startup.additional_port
                         (length port_list - Z.to_nat i))).
Proof.
  induction fuel as [|fuel IH]; intros i log Hi Hfuel; [lia|].
  cbn [Startup.additional_ports].
  destruct (Z.eq_dec i (Z.of_nat (length port_list))) as [->|Hne].
  - rewrite read_port_list_end.
    replace (length port_list - Z.to_nat (Z.of_nat (length port_list)))%nat
      with 0%nat by lia.
    cbn [repeat]. rewrite app_nil_r. reflexivity.
  - rewrite read_port_list_name by lia.
    rewrite IH by lia.
    replace (length port_list - Z.to_nat i)%nat
      with (S (length port_list - Z.to_nat (i + 1))) by lia.
    cbn [repeat]. rewrite <- app_assoc. reflexivity.
Qed.

Lemma additional_ports_finish port_list :
  forall (fuel : nat) (i : Z) (log : list Startup.message),
  0 <= i ->
  (length port_list - Z.to_nat i < fuel)%nat ->
  Startup.additional_ports fuel port_list i log <> Some None.
Proof.
  intros fuel i log Hi Hfuel.
  destruct (Z.le_gt_cases i (Z.of_nat (length port_list))) as [Hin|Hout].
  - rewrite additional_ports_spec by lia. discriminate.
  - destruct fuel as [|fuel]; [lia|].
    cbn [Startup.additional_ports].
    rewrite read_port_list_outside by lia. discriminate.
Qed.

(** [jack_init] returns only [0], and only with the ring buffer
    allocated, the session open and the server running at 44100 frames a
    second and activated; the state it leaves is then the fresh one, the
    queue empty and the flag clear.  Each failed step ends the call in
    [die] instead, the first one that fails deciding the message; and the
    loop over the additional ports always comes to its end. *)
Theorem jack_init_dies_or_sets_up (c : Startup.config_t)
  (lib : Startup.jack_library) :
  let name := Startup.client_name c in
  let rate := to_nframes (Startup.jack_get_sample_rate lib) in
  (Startup.ringbuffer_created lib = false ->
   Startup.jack_init c lib
   = Startup.Died (Startup.cannot_allocate_ringbuffer buffer_size))
  /\ (Startup.ringbuffer_created lib = true ->
      Startup.jack_client_open lib name = None ->
      Startup.jack_init c lib = Startup.Died Startup.could_not_start_server)
  /\ (Startup.ringbuffer_created lib = true ->
      Startup.jack_client_open lib name <> None ->
      rate <> 44100 ->
      Startup.jack_init c lib = Startup.Died (Startup.wrong_sample_rate rate))
  /\ (Startup.ringbuffer_created lib = true ->
      Startup.jack_client_open lib name <> None ->
      rate = 44100 -> Startup.jack_activate lib <> 0 ->
      Startup.jack_init c lib = Startup.Died (Startup.could_not_activate name))
  /\ (forall ret st connections log,
      Startup.jack_init c lib = Startup.Returned ret st connections log ->
      ret = 0
      /\ Startup.ringbuffer_created lib = true
      /\ (exists handle,
            Startup.jack_client_open lib name = Some handle
            /\ st = jack_init handle)
      /\ rate = 44100
      /\ Startup.jack_activate lib = 0
      /\ jack_ringbuffer_read_space (jackbuf st) = 0
      /\ flush_please st = 0)
  /\ Startup.jack_init c lib <> Startup.Unfinished.
Proof.
  intros name rate. unfold Startup.jack_init. fold name rate.
  destruct (Startup.ringbuffer_created lib) eqn:Ecreated; cbn [negb].
  2: { repeat split; try discriminate; try reflexivity; intros; discriminate. }
  destruct (Startup.jack_client_open lib name) as [handle|] eqn:Eopen.
  2: { repeat split; try discriminate; try reflexivity; intros;
       try discriminate; congruence. }
  destruct (Z.eqb_spec rate 44100) as [Erate|Erate]; cbn [negb].
  2: { repeat split; try discriminate; try reflexivity; intros;
       try discriminate; congruence. }
  destruct (Z.eqb_spec (Startup.jack_activate lib) 0) as [Eact|Eact];
    cbn [negb].
  2: { repeat split; try discriminate; try reflexivity; intros;
       try discriminate; congruence. }
  split; [discriminate|]. split; [discriminate|].
  split; [intros; congruence|]. split; [intros; congruence|].
  destruct (Startup.autoconnect_pattern c) as [pattern|].
  2: { split; [|discriminate].
       intros ret st conns log E. injection E as <- <- _ _.
       repeat split; try assumption. exists handle. split; reflexivity. }
  destruct (Startup.jack_get_ports lib pattern) as [port_list|];
    [|split; [intros; discriminate | discriminate]].
  destruct (Startup.connect_ports lib name pattern port_list
              (Z.to_nat NPORTS) 0 ([], [])) as [[conns0 log0]|];
    [|split; [intros; discriminate | discriminate]].
  pose proof (additional_ports_finish port_list (S (length port_list)) NPORTS
                log0 ltac:(unfold NPORTS; lia) ltac:(lia)) as Hfin.
  destruct (Startup.additional_ports (S (length port_list)) port_list NPORTS
              log0) as [[log1|]|].
  - split; [|discriminate].
    intros ret st conns log E. injection E as <- <- _ _.
    repeat split; try assumption. exists handle. split; reflexivity.
  - contradiction.
  - split; [intros; discriminate | discriminate].
Qed.

(** The theorem at a server that runs at 48000 frames a second. *)
Lemma jack_init_dies_or_sets_up_witness :
  Startup.ringbuffer_created Startup.server_48k = true
  /\ to_nframes (Startup.jack_get_sample_rate Startup.server_48k) <> 44100
  /\ Startup.jack_init Startup.plain_config Startup.server_48k
     = Startup.Died
         (Startup.wrong_sample_rate
            (to_nframes (Startup.jack_get_sample_rate Startup.server_48k))).
Proof.
  assert (H1 : Startup.ringbuffer_created Startup.server_48k = true)
    by reflexivity.
  assert (H2 : Startup.jack_client_open Startup.server_48k
                 (Startup.client_name Startup.plain_config) <> None)
    by discriminate.
  assert (H3 : to_nframes (Startup.jack_get_sample_rate Startup.server_48k)
               <> 44100) by (vm_compute; discriminate).
  exact (conj H1 (conj H3
           (proj1 (proj2 (proj2
              (jack_init_dies_or_sets_up Startup.plain_config
                 Startup.server_48k))) H1 H2 H3))).
Defined.

(** With an autoconnect pattern that at least [NPORTS] ports match,
    [jack_init] asks for the connection of [out_L] to the first and of
    [out_R] to the second port of the list, in this order, the source
    ports named after the client; whatever [jack_connect] answers, the
    call goes on and returns [0]; and it reports each further port of the
    list once.  When both connections succeed nothing else is reported. *)
Theorem jack_init_autoconnects_in_order (c : Startup.config_t)
  (lib : Startup.jack_library) (handle : Z) (pattern : String.string)
  (port_list : list String.string) :
  let name := Startup.client_name c in
  let out_L := Startup.full_port_name name 0 in
  let out_R := Startup.full_port_name name 1 in
  let first := nth 0 port_list String.EmptyString in
  let second := nth 1 port_list String.EmptyString in
  Startup.ringbuffer_created lib = true ->
  Startup.jack_client_open lib name = Some handle ->
  to_nframes (Startup.jack_get_sample_rate lib) = 44100 ->
  Startup.jack_activate lib = 0 ->
  Startup.autoconnect_pattern c = Some pattern ->
  Startup.jack_get_ports lib pattern = Some port_list ->
  NPORTS <= Z.of_nat (length port_list) ->
  exists log,
    Startup.jack_init c lib
    = Startup.Returned 0 (jack_init handle) [(out_L, first); (out_R, second)]
        (log ++ repeat Startup.additional_port
                  (length port_list - Z.to_nat NPORTS))
    /\ (Startup.jack_connect lib out_L first = 0 ->
        Startup.jack_connect lib out_R second = 0 -> log = [])
    /\ ~ In Startup.additional_port log.
Proof.
  intros name out_L out_R first second Hcreated Hopen Hrate Hact Hpat Hports
    Hlen.
  unfold NPORTS in Hlen.
  unfold Startup.jack_init. fold name.
  rewrite Hcreated, Hopen, Hrate, Hact, Hpat, Hports. cbn [negb Z.eqb].
  change (Z.to_nat NPORTS) with 2%nat.
  cbn [Startup.connect_ports].
  rewrite (read_port_list_name port_list 0) by lia.
  rewrite (read_port_list_name port_list (0 + 1)) by lia.
  change (Z.to_nat 0) with 0%nat. change (Z.to_nat (0 + 1)) with 1%nat.
  change (Startup.full_port_name name (0 + 1))
    with (Startup.full_port_name name 1).
  fold first second out_L out_R.
  cbn [Startup.connect_ports app].
  set (log0 := if Startup.jack_connect lib out_R second =? Startup.EEXIST
               then _ else _).
  rewrite (additional_ports_spec port_list (S (length port_list)) NPORTS log0)
    by (unfold NPORTS; lia).
  exists log0. split; [reflexivity|]. split.
  - intros E0 E1. unfold log0. rewrite E0, E1. reflexivity.
  - unfold log0.
    destruct (Startup.jack_connect lib out_R second =? Startup.EEXIST);
      destruct (Startup.jack_connect lib out_L first =? Startup.EEXIST);
      destruct (Startup.jack_connect lib out_R second =? 0);
      destruct (Startup.jack_connect lib out_L first =? 0);
      cbn; intuition discriminate.
Qed.

(** The theorem at a server with three playback ports, the second
    connection there already. *)
Lemma jack_init_autoconnects_in_order_witness :
  exists log,
    Startup.jack_init Startup.autoconnect_config Startup.server_three_ports
    = Startup.Returned 0 (jack_init 7)
        [(Startup.full_port_name
            (Startup.client_name Startup.autoconnect_config) 0,
          nth 0 Startup.three_playback_ports String.EmptyString);
         (Startup.full_port_name
            (Startup.client_name Startup.autoconnect_config) 1,
          nth 1 Startup.three_playback_ports String.EmptyString)]
        (log ++ repeat Startup.additional_port
                  (length Startup.three_playback_ports - Z.to_nat NPORTS)).
Proof.
  destruct (jack_init_autoconnects_in_order Startup.autoconnect_config
              Startup.server_three_ports 7 Startup.playback_pattern
              Startup.three_playback_ports
              eq_refl eq_refl eq_refl eq_refl eq_refl eq_refl
              ltac:(unfold NPORTS; cbn; lia)) as (log & H & _).
  exists log. exact H.
Defined.

(** The loops over [port_list] take [NPORTS] entries for granted.  With
    an autoconnect pattern for which [jack_get_ports] returns a null
    pointer, the call reads [port_list[0]] through it; with a list of
    fewer than [NPORTS] ports it reads the entry one place past the
    terminating null pointer, every entry before it lying inside the
    list.  C defines the result of neither read, so that the call has the
    outcome [Undefined]: what it does from there on, going on to its
    [return] included, depends on memory that is not the list's. *)
Theorem jack_init_autoconnect_reads_past_list (c : Startup.config_t)
  (lib : Startup.jack_library) (handle : Z) (pattern : String.string) :
  Startup.ringbuffer_created lib = true ->
  Startup.jack_client_open lib (Startup.client_name c) = Some handle ->
  to_nframes (Startup.jack_get_sample_rate lib) = 44100 ->
  Startup.jack_activate lib = 0 ->
  Startup.autoconnect_pattern c = Some pattern ->
  (Startup.jack_get_ports lib pattern = None
   \/ exists port_list,
        Startup.jack_get_ports lib pattern = Some port_list
        /\ Z.of_nat (length port_list) < NPORTS) ->
  Startup.jack_init c lib = Startup.Undefined
  /\ (forall port_list,
      Startup.jack_get_ports lib pattern = Some port_list ->
      let past := Z.of_nat (length port_list) + 1 in
      past <= NPORTS
      /\ Startup.read_port_list port_list past = None
      /\ (forall i, 0 <= i < past ->
          Startup.read_port_list port_list i <> None)).
Proof.
  intros Hcreated Hopen Hrate Hact Hpat Hports.
  split.
  2: { intros port_list Hlist past.
       destruct Hports as [Hnull|(port_list' & Hlist' & Hlen)];
         [congruence|].
       assert (port_list' = port_list) by congruence. subst port_list'.
       split; [unfold past; lia|]. split.
       - apply read_port_list_outside. unfold past. lia.
       - intros i Hi.
         destruct (Z.eq_dec i (Z.of_nat (length port_list))) as [->|Hne].
         + rewrite read_port_list_end. discriminate.
         + rewrite read_port_list_name by (unfold past in Hi; lia).
           discriminate. }
  unfold Startup.jack_init.
  rewrite Hcreated, Hopen, Hrate, Hact, Hpat. cbn [negb Z.eqb].
  destruct Hports as [->|(port_list & -> & Hlen)]; [reflexivity|].
  unfold NPORTS in Hlen.
  destruct port_list as [|first [|second rest]]; [| |cbn in Hlen; lia].
  - reflexivity.
  - change (Z.to_nat NPORTS) with 2%nat.
    cbn [Startup.connect_ports].
    rewrite (read_port_list_name [first] 0) by (cbn; lia).
    change (0 + 1) with (Z.of_nat (length [first])).
    rewrite (read_port_list_end [first]).
    cbn [Startup.connect_ports Startup.additional_ports].
    rewrite read_port_list_outside by (unfold NPORTS; cbn; lia).
    reflexivity.
Qed.

(** The theorem at a server with one playback port: the loop of line
    252 starts at [port_list[2]], one place past the terminator. *)
Lemma jack_init_autoconnect_reads_past_list_witness :
  Startup.jack_get_ports Startup.server_one_port Startup.playback_pattern
  = Some Startup.one_playback_port
  /\ Startup.read_port_list Startup.one_playback_port
       (Z.of_nat (length Startup.one_playback_port) + 1) = None
  /\ Startup.jack_init Startup.autoconnect_config Startup.server_one_port
     = Startup.Undefined.
Proof.
  assert (H : Startup.jack_get_ports Startup.server_one_port
                Startup.playback_pattern
              = Some Startup.one_playback_port) by reflexivity.
  assert (Hl : Z.of_nat (length Startup.one_playback_port) < NPORTS)
    by (vm_compute; reflexivity).
  pose proof (jack_init_autoconnect_reads_past_list Startup.autoconnect_config
                Startup.server_one_port 7 Startup.playback_pattern
                eq_refl eq_refl eq_refl eq_refl eq_refl
                (or_intror
                   (ex_intro _ Startup.one_playback_port (conj H Hl))))
    as [Hout Hread].
  destruct (Hread Startup.one_playback_port H) as (_ & Hpast & _).
  exact (conj H (conj Hpast Hout)).
Defined.

(** ** A flush request until the callback runs *)

(** A flush request is not lost: whatever is played, requested again or
    reordered before the callback runs next, the flag stays set, and the
    next callback discards everything queued by then, outputs [nframes]
    frames of silence and clears the flag. *)
Theorem flush_request_waits_for_callback (st st' : jack_state)
  (nframes : Z) (buffer : port_buffers) :
  wf (jackbuf st) ->
  between_callbacks (jack_flush st) st' ->
  0 <= nframes <= INT_MAX ->
  flush_please st' = 1
  /\ wf (jackbuf st')
  /\ contents (jackbuf (process_state nframes st' buffer)) = []
  /\ flush_please (process_state nframes st' buffer) = 0
  /\ (forall i f, 0 <= i < NPORTS -> 0 <= f < nframes ->
      process_output nframes st' buffer i f = 0%float).
Proof.
  intros Hwf Hrun Hn.
  assert (Hinv : flush_please st' = 1 /\ wf (jackbuf st')).
  { remember (jack_flush st) as st0 eqn:E.
    induction Hrun as [st0|st0 st' buf samples clock _ IH _ _ _
                       |st0 st' _ IH|st0 st' latest reported _ IH _].
    - subst st0. split; [reflexivity | exact Hwf].
    - destruct (IH E) as [Hf Hw]. split.
      + rewrite play_flush_please. exact Hf.
      + apply play_wf, Hw.
    - destruct (IH E) as [_ Hw]. split; [reflexivity | exact Hw].
    - destruct (IH E) as [Hf Hw].
      unfold graph_state. rewrite graph_unfold. split; assumption. }
  destruct Hinv as [Hflag Hwf'].
  assert (Hflush : flush_please st' <> 0) by (rewrite Hflag; discriminate).
  split; [exact Hflag|]. split; [exact Hwf'|].
  split; [|split].
  - unfold contents.
    rewrite (process_flush_empty st' nframes buffer Hwf' Hflush).
    reflexivity.
  - unfold process_state. rewrite process_flush_unfold by assumption.
    reflexivity.
  - intros i f Hi Hf. rewrite process_flush_output by assumption.
    now case_cmp.
Qed.

(** The theorem at two frames queued, a flush request, two hundred
    frames played and a graph reorder before the callback. *)
Lemma flush_request_waits_for_callback_witness :
  between_callbacks (jack_flush st_two_frames)
    (graph_state st_flush_then_play no_ranges two_ranges)
  /\ flush_please (graph_state st_flush_then_play no_ranges two_ranges) = 1
  /\ contents
       (jackbuf
          (process_state 64
             (graph_state st_flush_then_play no_ranges two_ranges)
             stale_ports)) = [].
Proof.
  assert (H1 : wf (jackbuf st_two_frames)) by exact two_frames_wf.
  assert (H2 : between_callbacks (jack_flush st_two_frames)
                 (graph_state st_flush_then_play no_ranges two_ranges)).
  { apply between_graph; [|exact two_ranges_in_type].
    unfold st_flush_then_play. apply between_play.
    - apply between_none.
    - lia.
    - unfold bytes_per_frame, INT_MAX. lia.
    - vm_compute. discriminate. }
  assert (H3 : 0 <= 64 <= INT_MAX) by (unfold INT_MAX; lia).
  pose proof (flush_request_waits_for_callback st_two_frames _ 64 stale_ports
                H1 H2 H3) as (Hflag & _ & Hempty & _).
  exact (conj H2 (conj Hflag Hempty)).
Defined.
